(** * Neural Style Memory Book: the service worker's cache manager (sw.js)

    A shallow embedding of the request-interception and caching logic of
    [sw.js]: route classification, the five caching strategies, the
    stamping of cached responses, FIFO eviction, the offline fallback, the
    install handler and the prefetch command.

    Asynchronous functions are written in a small state-and-exception
    monad over a [world] that holds the CacheStorage, a chronological
    trace of the platform calls, and the queue of cache writes that were
    started without being awaited.  A computation that ends in [Thrown] is
    a rejected promise.

    The platform is modelled as follows.  A Cache lists its keys in
    insertion order and [put] on a key that is present removes the old
    pair and appends the new one (Cache API).  [put] and [addAll] reject a
    response of status 206 and a response whose [Vary] header lists [*];
    the other operations on the CacheStorage do not fail.  Keys are the
    URLs of GET requests over http(s), which is all the worker stores.
    The network is a function from URLs to a response or an error, and the
    clock is fixed, for the duration of one handler run.  Fetches that the
    worker issues together ([addAll], the model list) are taken in list
    order.  A write that was started without being awaited completes at
    [settle]; the program itself fixes no order between such a write and
    the calls that follow it. *)

From Stdlib Require Import ZArith String Ascii List Bool Lia.
From stdpp Require Import base option list strings gmap.
Import ListNotations.

Local Open Scope string_scope.
Local Open Scope list_scope.
Local Open Scope Z_scope.

(** ** Data model *)

(** A [Response].  The header [sw-cache-time] is kept apart from the other
    headers, already read as the instant in milliseconds that
    [new Date(header).getTime()] yields; the only writer of that header in
    the program is [cacheResponse], which stores [new Date().toISOString()],
    and that string parses back to the same millisecond. *)
Record response := Response {
  status : Z;
  statusText : string;
  headers : list (string * string);
  swCacheTime : option Z;
  body : string
}.

(** [response.ok]: the status is in the range 200-299. *)
Definition ok (r : response) : bool :=
  (200 <=? status r) && (status r <=? 299).

(** [new URL(request.url)]: the fields of the parsed URL that the worker
    reads. *)
Record URL := mkURL {
  href : string;
  pathname : string;
  protocol : string
}.

Record request := Request {
  url : URL;
  method : string;
  destination : string
}.

(** The identity of a request in a Cache is its URL. *)
Definition key_of (req : request) : string := href (url req).

(** Values thrown by the worker or by the platform. *)
Inductive error :=
  | FetchError (what : string)
  | JsError (message : string).

(** What an [await] can give back to a handler: a response, or the
    JavaScript value [undefined]. *)
Inductive value :=
  | Undefined
  | Resp (r : response).

(** A Cache: request/response pairs in insertion order, which is the order
    [cache.keys()] lists them in. *)
Abbreviation cache := (list (string * response)).

(** Calls to the platform, in the order they are issued. *)
Inductive event :=
  | EvFetch (u : string)
  | EvOpen (name : string)
  | EvMatch (name key : string)
  | EvPut (name key : string)
  | EvDelete (name key : string)
  | EvKeys (name : string)
  | EvSkipWaiting.

(** [caches] is the CacheStorage; [background] holds the cache writes that
    were issued but not awaited by the handler that issued them. *)
Record world := World {
  caches : gmap string cache;
  trace : list event;
  background : list (string * string * response)
}.

(** The surroundings of one handler run: the clock and the network. *)
Record env := Env {
  now : Z;
  net : string -> response + error
}.

(** ** Operations on one Cache *)

Definition store_match (k : string) (c : cache) : option response :=
  snd <$> List.find (fun e => String.eqb (fst e) k) c.

Definition store_delete (k : string) (c : cache) : cache :=
  List.filter (fun e => negb (String.eqb (fst e) k)) c.

(** [cache.put]: an existing entry for the key is removed and the new pair
    is appended. *)
Definition store_put (k : string) (r : response) (c : cache) : cache :=
  store_delete k c ++ [(k, r)].

Definition store_keys (c : cache) : list string := List.map fst c.

(** The cache behind a name; a name with no cache reads as empty. *)
Definition store_of (name : string) (w : world) : cache :=
  default [] (caches w !! name).

Definition store_lookup (name key : string) (w : world) : option response :=
  store_match key (store_of name w).

(** ** The monad of asynchronous functions *)

Inductive outcome (A : Type) :=
  | Returned (a : A)
  | Thrown (e : error).
Arguments Returned {A} a.
Arguments Thrown {A} e.

Definition M (A : Type) : Type := world -> outcome A * world.

Definition ret {A} (a : A) : M A := fun w => (Returned a, w).

Definition throw {A} (e : error) : M A := fun w => (Thrown e, w).

Definition bind {A B} (m : M A) (k : A -> M B) : M B :=
  fun w =>
    match m w with
    | (Returned a, w') => k a w'
    | (Thrown e, w') => (Thrown e, w')
    end.

(** [try { m } catch (e) { h e }] *)
Definition try_catch {A} (m : M A) (h : error -> M A) : M A :=
  fun w =>
    match m w with
    | (Returned a, w') => (Returned a, w')
    | (Thrown e, w') => h e w'
    end.

(** [try { m } finally { f }]: [f] runs on both exits; a throw of [f]
    replaces the outcome of [m]. *)
Definition try_finally {A} (m : M A) (f : M unit) : M A :=
  fun w =>
    match m w with
    | (o, w') =>
        match f w' with
        | (Returned _, w'') => (o, w'')
        | (Thrown e, w'') => (Thrown e, w'')
        end
    end.

Declare Scope js_scope.
Delimit Scope js_scope with js.
Notation "x <- m ;; k" := (bind m (fun x => k))
  (at level 100, m at next level, right associativity) : js_scope.
Notation "m ;;; k" := (bind m (fun _ => k))
  (at level 100, right associativity) : js_scope.
Local Open Scope js_scope.

Fixpoint forEach {A} (f : A -> M unit) (l : list A) : M unit :=
  match l with
  | [] => ret tt
  | x :: l' => f x ;;; forEach f l'
  end.

Definition emit (e : event) (w : world) : world :=
  World (caches w) (trace w ++ [e]) (background w).

Definition set_caches (cs : gmap string cache) (w : world) : world :=
  World cs (trace w) (background w).

(** ** Platform calls *)

(** [fetch(url)] *)
Definition fetch (E : env) (u : string) : M response :=
  fun w =>
    match net E u with
    | inl r => (Returned r, emit (EvFetch u) w)
    | inr e => (Thrown e, emit (EvFetch u) w)
    end.

(** [caches.open(name)]: the cache is created when it does not exist; the
    handle is the name. *)
Definition opened (name : string) (w : world) : world :=
  let cs := match caches w !! name with
            | Some _ => caches w
            | None => <[name := []]> (caches w)
            end in
  emit (EvOpen name) (set_caches cs w).

Definition caches_open (name : string) : M string :=
  fun w => (Returned name, opened name w).

(** [cache.match(key)] *)
Definition cache_match (c : string) (k : string) : M (option response) :=
  fun w => (Returned (store_lookup c k w), emit (EvMatch c k) w).

(** Header names compare without regard to case. *)
Definition lower_char (a : ascii) : ascii :=
  let n := nat_of_ascii a in
  if ((65 <=? n) && (n <=? 90))%nat then ascii_of_nat (n + 32) else a.

Fixpoint lower (s : string) : string :=
  match s with
  | EmptyString => EmptyString
  | String a s' => String (lower_char a) (lower s')
  end.

(** The members of a comma-separated header value, without the blanks
    around them. *)
Definition is_blank (a : ascii) : bool :=
  Ascii.eqb a " "%char || Ascii.eqb a "009"%char.

Fixpoint drop_blanks (l : list ascii) : list ascii :=
  match l with
  | [] => []
  | a :: l' => if is_blank a then drop_blanks l' else l
  end.

Definition strip (s : string) : string :=
  string_of_list_ascii
    (List.rev (drop_blanks (List.rev (drop_blanks (list_ascii_of_string s))))).

Fixpoint split_commas (s : string) : list string :=
  match s with
  | EmptyString => [EmptyString]
  | String a s' =>
      if Ascii.eqb a ","%char then EmptyString :: split_commas s'
      else match split_commas s' with
           | [] => [String a EmptyString]
           | v :: vs => String a v :: vs
           end
  end.

(** The response has a [Vary] header with the member [*]. *)
Definition vary_star (r : response) : bool :=
  existsb
    (fun h : string * string =>
       String.eqb (lower h.1) "vary" &&
       existsb (fun v => String.eqb (strip v) "*") (split_commas h.2))
    (headers r).

(** What [cache.put] accepts: any response but one of status 206 or one
    that varies on [*]. *)
Definition storable (r : response) : bool :=
  negb (status r =? 206) && negb (vary_star r).

Definition put_rejected : error :=
  JsError "TypeError: the Cache does not accept this response".

(** [cache.put(key, response)] *)
Definition put_into (c k : string) (r : response) (w : world) : world :=
  emit (EvPut c k) (set_caches (<[c := store_put k r (store_of c w)]> (caches w)) w).

Definition cache_put (c : string) (k : string) (r : response) : M unit :=
  fun w =>
    if storable r then (Returned tt, put_into c k r w)
    else (Thrown put_rejected, emit (EvPut c k) w).

(** [cache.delete(key)] *)
Definition deleted_from (c k : string) (w : world) : world :=
  emit (EvDelete c k) (set_caches (<[c := store_delete k (store_of c w)]> (caches w)) w).

Definition cache_delete (c : string) (k : string) : M unit :=
  fun w => (Returned tt, deleted_from c k w).

(** [cache.keys()] *)
Definition cache_keys (c : string) : M (list string) :=
  fun w => (Returned (store_keys (store_of c w)), emit (EvKeys c) w).

(** [self.skipWaiting()] *)
Definition skipWaiting : M unit :=
  fun w => (Returned tt, emit EvSkipWaiting w).

(** ** Regular expressions of the route table

    The fragment of JavaScript regular expressions that [ROUTE_CONFIG]
    uses: literals, sequence, alternation, [?] and the anchor [$] (no
    flags, so [$] is the end of the input). *)
Inductive regex :=
  | Lit (s : string)
  | Seq (a b : regex)
  | Alt (a b : regex)
  | Opt (a : regex)
  | Eol.

Fixpoint strip_prefix (p s : string) : option string :=
  match p with
  | EmptyString => Some s
  | String a p' =>
      match s with
      | EmptyString => None
      | String b s' => if Ascii.eqb a b then strip_prefix p' s' else None
      end
  end.

(** [match_here r s k]: [r] matches a prefix of [s] and [k] accepts the
    rest (backtracking over the alternatives). *)
Fixpoint match_here (r : regex) (s : string) (k : string -> bool) : bool :=
  match r with
  | Lit l => match strip_prefix l s with
             | Some rest => k rest
             | None => false
             end
  | Seq a b => match_here a s (fun rest => match_here b rest k)
  | Alt a b => match_here a s k || match_here b s k
  | Opt a => match_here a s k || k s
  | Eol => match s with
           | EmptyString => k s
           | String _ _ => false
           end
  end.

(** [pattern.test(s)]: a match starting at some position of [s]. *)
Fixpoint test (r : regex) (s : string) : bool :=
  match_here r s (fun _ => true) ||
  match s with
  | EmptyString => false
  | String _ s' => test r s'
  end.

Fixpoint alts (l : list string) : regex :=
  match l with
  | [] => Lit "" (* not used with an empty list *)
  | [s] => Lit s
  | s :: l' => Alt (Lit s) (alts l')
  end.

(** ** Configuration *)

Definition STATIC_CACHE := "neural-static-v1.2.0".
Definition DYNAMIC_CACHE := "neural-dynamic-v1.2.0".
Definition MODEL_CACHE := "neural-models-v1.2.0".
Definition IMAGE_CACHE := "neural-images-v1.2.0".

Definition STATIC_ASSETS : list string := [
  "/";
  "/index.html";
  "/css/variables.css";
  "/css/styles.css";
  "/css/queries.css";
  "/js/script.js";
  "/manifest.json";
  "https://cdnjs.cloudflare.com/ajax/libs/three.js/r128/three.min.js";
  "https://cdnjs.cloudflare.com/ajax/libs/gsap/3.12.2/gsap.min.js";
  "https://cdn.jsdelivr.net/npm/@tensorflow/tfjs@4.10.0/dist/tf.min.js";
  "https://cdn.jsdelivr.net/npm/@tensorflow-models/mobilenet@2.1.1/dist/mobilenet.min.js";
  "https://cdn.jsdelivr.net/npm/@tensorflow-models/blazeface@0.0.7/dist/blazeface.min.js"
].

Definition MODEL_URLS : list string := [
  "https://cdn.jsdelivr.net/npm/@tensorflow-models/blazeface@0.0.7/dist/blazeface.min.js";
  "https://cdn.jsdelivr.net/npm/@tensorflow-models/mobilenet@2.1.1/dist/mobilenet.min.js"
].

(** [CACHE_STRATEGIES] *)
Inductive strategy_kind :=
  | CACHE_FIRST
  | NETWORK_FIRST
  | STALE_WHILE_REVALIDATE
  | NETWORK_ONLY
  | CACHE_ONLY.

(** A route configuration.  The default route that [findMatchingRoute]
    builds has no [pattern]; a [maxEntries] that is unset reads as [0],
    which [cleanupCache] treats the same way ([!maxEntries]). *)
Record route := Route {
  pattern : option regex;
  strategy : strategy_kind;
  cacheName : string;
  maxAge : Z;
  maxEntries : Z
}.

(** [/\.(css|js|png|jpg|jpeg|svg|woff2?|ttf|eot)$/] *)
Definition static_pattern : regex :=
  Seq (Lit ".")
    (Seq (Alt (Lit "css") (Alt (Lit "js") (Alt (Lit "png") (Alt (Lit "jpg")
          (Alt (Lit "jpeg") (Alt (Lit "svg")
          (Alt (Seq (Lit "woff") (Opt (Lit "2")))
          (Alt (Lit "ttf") (Lit "eot")))))))))
         Eol).

(** [/tensorflow|blazeface|mobilenet/] *)
Definition models_pattern : regex :=
  alts ["tensorflow"; "blazeface"; "mobilenet"].

(** [/\.(jpg|jpeg|png|webp|gif)$/] *)
Definition images_pattern : regex :=
  Seq (Lit ".") (Seq (alts ["jpg"; "jpeg"; "png"; "webp"; "gif"]) Eol).

(** [/\/api\//] *)
Definition api_pattern : regex := Lit "/api/".

(** [/\.html$|\/$/] *)
Definition html_pattern : regex :=
  Alt (Seq (Lit ".html") Eol) (Seq (Lit "/") Eol).

Definition route_static : route :=
  Route (Some static_pattern) CACHE_FIRST STATIC_CACHE (7 * 24 * 60 * 60 * 1000) 100.
Definition route_models : route :=
  Route (Some models_pattern) CACHE_FIRST MODEL_CACHE (30 * 24 * 60 * 60 * 1000) 20.
Definition route_images : route :=
  Route (Some images_pattern) STALE_WHILE_REVALIDATE IMAGE_CACHE (7 * 24 * 60 * 60 * 1000) 200.
Definition route_api : route :=
  Route (Some api_pattern) NETWORK_FIRST DYNAMIC_CACHE (5 * 60 * 1000) 50.
Definition route_html : route :=
  Route (Some html_pattern) NETWORK_FIRST DYNAMIC_CACHE (24 * 60 * 60 * 1000) 20.

(** [Object.entries(ROUTE_CONFIG)]: the entries in the order the object
    literal lists them. *)
Definition ROUTE_CONFIG : list (string * route) := [
  ("static", route_static);
  ("models", route_models);
  ("images", route_images);
  ("api", route_api);
  ("html", route_html)
].

Definition route_default : route :=
  Route None NETWORK_FIRST DYNAMIC_CACHE (5 * 60 * 1000) 50.

(** ** Route classification *)

Definition route_matches (u : URL) (config : route) : bool :=
  match pattern config with
  | Some p => test p (pathname u) || test p (href u)
  | None => false
  end.

Definition findMatchingRoute (u : URL) (req : request) : route :=
  match List.find (fun entry => route_matches u (snd entry)) ROUTE_CONFIG with
  | Some (_, config) => config
  | None => route_default
  end.

(** ** Writing and trimming a cache *)

(** The response that [cacheResponse] builds: body, status and status text
    of the original, and a fresh header object.  Spreading a [Headers]
    object copies no entry (it has no own enumerable property), so the
    stamp is the only header of the stored response. *)
Definition stamped (E : env) (r : response) : response :=
  Response (status r) (statusText r) [] (Some (now E)) (body r).

Definition cacheResponse (E : env) (c : string) (req : request) (r : response) : M unit :=
  cache_put c (key_of req) (stamped E r).

(** A call of [cacheResponse] whose promise is dropped: the stamped
    response is built at once, its [cache.put] completes later, at
    [settle]. *)
Definition queued (c k : string) (r : response) (w : world) : world :=
  World (caches w) (trace w) (background w ++ [(c, k, r)]).

Definition cacheResponse_detached (E : env) (c : string) (req : request) (r : response) : M unit :=
  fun w => (Returned tt, queued c (key_of req) (stamped E r) w).

(** The pending writes complete, oldest first; one that the Cache rejects
    is lost, nobody awaits it. *)
Definition settle : M unit :=
  fun w =>
    forEach
      (fun p : string * string * response =>
         try_catch (cache_put p.1.1 p.1.2 p.2) (fun _ => ret tt))
      (background w) (World (caches w) (trace w) []).

Definition cleanupCache (name : string) (maxEntries : Z) : M unit :=
  if maxEntries =? 0 then ret tt
  else
    try_catch
      (c <- caches_open name ;;
       keys <- cache_keys c ;;
       if Z.of_nat (length keys) >? maxEntries then
         let keysToDelete := take (Z.to_nat (Z.of_nat (length keys) - maxEntries)) keys in
         forEach (cache_delete c) keysToDelete
       else ret tt)
      (fun _ => ret tt).

(** ** Caching strategies *)

(** [new Date(cachedResponse.headers.get('sw-cache-time') || 0).getTime()] *)
Definition cacheTime (r : response) : Z := default 0 (swCacheTime r).

Definition isExpired (E : env) (r : response) (maxAge : Z) : bool :=
  now E - cacheTime r >? maxAge.

(** The [try]/[catch] around the network in [cacheFirst]. *)
Definition cacheFirst_network (E : env) (c : string) (req : request)
    (cachedResponse : option response) : M response :=
  try_catch
    (networkResponse <- fetch E (key_of req) ;;
     (if ok networkResponse then cacheResponse E c req networkResponse else ret tt) ;;;
     ret networkResponse)
    (fun error =>
       match cachedResponse with
       | Some r => ret r
       | None => throw error
       end).

Definition cacheFirst (E : env) (req : request) (name : string) (maxAge : Z) : M response :=
  c <- caches_open name ;;
  cachedResponse <- cache_match c (key_of req) ;;
  match cachedResponse with
  | Some r =>
      if negb (isExpired E r maxAge) then ret r
      else cacheFirst_network E c req cachedResponse
  | None => cacheFirst_network E c req cachedResponse
  end.

Definition networkFirst (E : env) (req : request) (name : string) (maxAge : Z) : M response :=
  c <- caches_open name ;;
  try_catch
    (networkResponse <- fetch E (key_of req) ;;
     (if ok networkResponse then cacheResponse E c req networkResponse else ret tt) ;;;
     ret networkResponse)
    (fun error =>
       cachedResponse <- cache_match c (key_of req) ;;
       match cachedResponse with
       | Some r => ret r
       | None => throw error
       end).

(** [networkPromise] of [staleWhileRevalidate]: the [then] callback starts
    [cacheResponse] without awaiting it and passes the response on; the
    [catch] callback only logs, so the promise is fulfilled with
    [undefined]. *)
Definition networkPromise (E : env) (c : string) (req : request) : M value :=
  try_catch
    (response <- fetch E (key_of req) ;;
     (if ok response then cacheResponse_detached E c req response else ret tt) ;;;
     ret (Resp response))
    (fun error => ret Undefined).

(** The fetch is issued before the cached response is looked at; with a
    cached response the promise is left to run and its value is dropped,
    without one the function awaits it. *)
Definition staleWhileRevalidate (E : env) (req : request) (name : string) (maxAge : Z) : M value :=
  c <- caches_open name ;;
  cachedResponse <- cache_match c (key_of req) ;;
  fetched <- networkPromise E c req ;;
  match cachedResponse with
  | Some r => ret (Resp r)
  | None => ret fetched
  end.

Definition cacheOnly (req : request) (name : string) : M response :=
  c <- caches_open name ;;
  cachedResponse <- cache_match c (key_of req) ;;
  match cachedResponse with
  | None => throw (JsError "No cached response available")
  | Some r => ret r
  end.

(** ** Offline fallback *)

(** The inline offline page and the placeholder image; the markup itself
    is not reproduced. *)
Definition offline_page : response :=
  Response 200 "" [("Content-Type", "text/html")] None
    "<!DOCTYPE html> Neural Style Memory Book - Offline".
Definition offline_image : response :=
  Response 200 "" [("Content-Type", "image/svg+xml")] None
    "<svg> Image Unavailable Offline </svg>".

Definition handleOfflineFallback (req : request) : M response :=
  if String.eqb (destination req) "document" then
    c <- caches_open STATIC_CACHE ;;
    root <- cache_match c "/" ;;
    cachedPage <- match root with
                  | Some r => ret (Some r)
                  | None => cache_match c "/index.html"
                  end ;;
    match cachedPage with
    | Some r => ret r
    | None => ret offline_page
    end
  else if String.eqb (destination req) "image" then
    ret offline_image
  else
    throw (JsError "Offline and no cached response available").

(** ** Request handling *)

Definition as_value (m : M response) : M value :=
  r <- m ;; ret (Resp r).

(** The [switch] of [handleRequest]; its [default] branch is the same
    bare fetch as [NETWORK_ONLY]. *)
Definition run_strategy (E : env) (req : request) (config : route) : M value :=
  match strategy config with
  | CACHE_FIRST => as_value (cacheFirst E req (cacheName config) (maxAge config))
  | NETWORK_FIRST => as_value (networkFirst E req (cacheName config) (maxAge config))
  | STALE_WHILE_REVALIDATE => staleWhileRevalidate E req (cacheName config) (maxAge config)
  | NETWORK_ONLY => as_value (fetch E (key_of req))
  | CACHE_ONLY => as_value (cacheOnly req (cacheName config))
  end.

Definition handleRequest (E : env) (req : request) (config : route) : M value :=
  try_finally
    (try_catch
       (run_strategy E req config)
       (fun error => as_value (handleOfflineFallback req)))
    (cleanupCache (cacheName config) (maxEntries config)).

(** The [fetch] listener: [None] when the worker leaves the request to the
    browser, otherwise the promise given to [respondWith]. *)
Definition onFetch (E : env) (req : request) : option (M value) :=
  if negb (String.eqb (method req) "GET") then None
  else if negb (String.prefix "http" (protocol (url req))) then None
  else Some (handleRequest E req (findMatchingRoute (url req) req)).

(** ** Install and prefetch *)

(** [cache.addAll(urls)] of the Cache API: every URL is fetched; if a fetch
    fails, or a response is not [ok] or is one that [put] does not accept,
    the promise rejects and nothing is stored, otherwise all the responses
    are stored in the order of the list. *)
Definition fetch_settled (E : env) (u : string) : M (string * (response + error)) :=
  fun w => (Returned (u, net E u), emit (EvFetch u) w).

Fixpoint fetch_each (E : env) (urls : list string) : M (list (string * (response + error))) :=
  match urls with
  | [] => ret []
  | u :: rest =>
      r <- fetch_settled E u ;;
      rs <- fetch_each E rest ;;
      ret (r :: rs)
  end.

Fixpoint first_failure (results : list (string * (response + error))) : option error :=
  match results with
  | [] => None
  | (u, inl r) :: rest =>
      if ok r && storable r then first_failure rest else Some (FetchError u)
  | (u, inr e) :: _ => Some e
  end.

Fixpoint fulfilled (results : list (string * (response + error))) : list (string * response) :=
  match results with
  | [] => []
  | (u, inl r) :: rest => (u, r) :: fulfilled rest
  | (u, inr _) :: rest => fulfilled rest
  end.

Definition cache_addAll (E : env) (c : string) (urls : list string) : M unit :=
  results <- fetch_each E urls ;;
  match first_failure results with
  | Some e => throw e
  | None => forEach (fun p : string * response => cache_put c p.1 p.2) (fulfilled results)
  end.

(** One element of [MODEL_URLS.map(...)] in the install handler. *)
Definition install_model (E : env) (modelCache : string) (u : string) : M unit :=
  try_catch
    (response <- fetch E u ;;
     if ok response then cache_put modelCache u response else ret tt)
    (fun err => ret tt).

(** The promise handed to [event.waitUntil] by the install listener:
    [Returned] when it is fulfilled, [Thrown] when it rejects. *)
Definition onInstall (E : env) : M unit :=
  try_catch
    (staticCache <- caches_open STATIC_CACHE ;;
     cache_addAll E staticCache STATIC_ASSETS ;;;
     modelCache <- caches_open MODEL_CACHE ;;
     forEach (install_model E modelCache) MODEL_URLS ;;;
     skipWaiting)
    (fun error => ret tt).

Definition prefetchModels (E : env) (modelUrls : list string) : M unit :=
  try_catch
    (c <- caches_open MODEL_CACHE ;;
     forEach
       (fun u =>
          try_catch
            (response <- fetch E u ;;
             if ok response then cache_put c u response else ret tt)
            (fun error => ret tt))
       modelUrls)
    (fun error => throw error).

(** ** Observing a run *)

(** The platform calls issued between two worlds. *)
Definition new_events (w w' : world) : list event :=
  drop (length (trace w)) (trace w').

(** A run of [m] from [w] issued a fetch of [u]. *)
Definition fetch_attempted {A} (m : M A) (w : world) (u : string) : Prop :=
  In (EvFetch u) (new_events w (m w).2).

(** The stores hold the same entries and the same writes are pending. *)
Definition same_contents (w w' : world) : Prop :=
  (forall name, store_of name w' = store_of name w) /\
  background w' = background w.

(** Every entry of every store, and every pending write, carries the
    stamp. *)
Definition all_stamped (w : world) : Prop :=
  (forall name k r, store_lookup name k w = Some r -> is_Some (swCacheTime r)) /\
  (forall c k r, (c, k, r) ∈ background w -> is_Some (swCacheTime r)).

(** Between [w] and [w'] nothing was stored or queued except responses
    stamped with the current time of [E]. *)
Definition stamps_new (E : env) (w w' : world) : Prop :=
  (forall name k r, store_lookup name k w' = Some r ->
     store_lookup name k w = Some r \/ swCacheTime r = Some (now E)) /\
  (forall c k r, (c, k, r) ∈ background w' ->
     (c, k, r) ∈ background w \/ swCacheTime r = Some (now E)).

(** A computation whose runs are all related by [R]. *)
Definition keeps (R : world -> world -> Prop) {A} (m : M A) : Prop :=
  forall w, R w (m w).2.

(** ** Histories of one store *)

(** What happens to one store under a policy: a response is written
    through [cacheResponse], a response is written with a bare
    [cache.put], or the eviction step of the policy runs.  A write that
    the Cache rejects fails on its own and writes nothing. *)
Inductive store_op :=
  | Stamped (E : env) (req : request) (r : response)
  | Bare (k : string) (r : response)
  | Trim.

Definition run_op (name : string) (N : Z) (op : store_op) : M unit :=
  match op with
  | Stamped E req r => try_catch (cacheResponse E name req r) (fun _ => ret tt)
  | Bare k r => try_catch (cache_put name k r) (fun _ => ret tt)
  | Trim => cleanupCache name N
  end.

(** The key and the stored response of a write that the Cache accepts. *)
Definition written (op : store_op) : option (string * response) :=
  match op with
  | Stamped E req r =>
      if storable (stamped E r) then Some (key_of req, stamped E r) else None
  | Bare k r => if storable r then Some (k, r) else None
  | Trim => None
  end.

Definition written_keys (ops : list store_op) : list string :=
  omap (fun op => fst <$> written op) ops.

(** The keys of a sequence of writes, each once, in the order of their
    last write: the most recently written key is last. *)
Fixpoint last_writes (ks : list string) : list string :=
  match ks with
  | [] => []
  | k :: rest =>
      if decide (k ∈ rest) then last_writes rest else k :: last_writes rest
  end.

(** The last [n] elements of a list. *)
Definition last_n {A} (n : nat) (l : list A) : list A :=
  drop (length l - n) l.

(** The store that [cleanupCache] leaves: the keys it selects are deleted
    one by one. *)
Definition trim (N : Z) (c : cache) : cache :=
  if Z.of_nat (length c) >? N then
    fold_left (fun s k => store_delete k s)
      (take (Z.to_nat (Z.of_nat (length c) - N)) (store_keys c)) c
  else c.

Definition step_store (N : Z) (c : cache) (op : store_op) : cache :=
  match op with
  | Trim => trim N c
  | _ => match written op with
         | Some (k, r) => store_put k r c
         | None => c
         end
  end.

(** All the writes of a history, with no eviction. *)
Definition replay (P : cache) (ops : list store_op) : cache :=
  fold_left
    (fun c op => match written op with
                 | Some (k, r) => store_put k r c
                 | None => c
                 end) ops P.

(** [S] is what is left of the written entries [P]: a suffix of them that
    is either all of them or at least [n] long. *)
Definition retained (n : nat) (P S : cache) : Prop :=
  NoDup (store_keys P) /\
  exists p, P = p ++ S /\ (p = [] \/ (n <= length S)%nat).

(** ** Statements that the worker does not meet as they stand *)

(** The freshness threshold with a strict bound: an entry stamped [t0] is
    served from the cache before [t0 + d] and the network is consulted from
    [t0 + d] on. *)
Definition strict_freshness (E : env) (req : request) (name : string) (d : Z) (w : world) : Prop :=
  forall r t0,
    store_lookup name (key_of req) w = Some r ->
    swCacheTime r = Some t0 ->
    (now E < t0 + d ->
       (cacheFirst E req name d w).1 = Returned r /\
       ~ fetch_attempted (cacheFirst E req name d) w (key_of req)) /\
    (t0 + d <= now E ->
       fetch_attempted (cacheFirst E req name d) w (key_of req)).

(** The fallback never throws: it gives a response for this request. *)
Definition fallback_never_throws (req : request) (w : world) : Prop :=
  exists r, (handleOfflineFallback req w).1 = Returned r.

(** A network response that is not [ok] is handed to the caller by each of
    the three caching strategies (by [cacheFirst] when it consults the
    network) and leaves the stores as they were. *)
Definition failed_response_returned (E : env) (req : request) (name : string)
    (d : Z) (w : world) : Prop :=
  forall r,
    net E (key_of req) = inl r -> ok r = false ->
    (fetch_attempted (cacheFirst E req name d) w (key_of req) ->
       (cacheFirst E req name d w).1 = Returned r) /\
    (networkFirst E req name d w).1 = Returned r /\
    (staleWhileRevalidate E req name d w).1 = Returned (Resp r) /\
    same_contents w (cacheFirst E req name d w).2 /\
    same_contents w (networkFirst E req name d w).2 /\
    same_contents w (staleWhileRevalidate E req name d w).2.

(** Handling a NETWORK_ONLY request leaves every store alone: the outcome
    is that of the fetch, the stores hold what they held, and the fetch is
    the only platform call. *)
Definition only_the_fetch (E : env) (req : request) (config : route) (w : world) : Prop :=
  strategy config = NETWORK_ONLY ->
  let res := handleRequest E req config w in
  res.1 = (as_value (fetch E (key_of req)) w).1 /\
  (forall name, store_of name res.2 = store_of name w) /\
  new_events w res.2 = [EvFetch (key_of req)].

(** Install and prefetch keep every entry stamped. *)
Definition install_keeps_stamps (E : env) (modelUrls : list string) (w : world) : Prop :=
  all_stamped w ->
  all_stamped (onInstall E w).2 /\ all_stamped (prefetchModels E modelUrls w).2.

(** ** Sample inputs *)

Definition logo_url : URL :=
  mkURL "https://cdn.example/app/logo.png" "/app/logo.png" "https:".
Definition logo_request : request := Request logo_url "GET" "image".

Definition script_request : request :=
  Request (mkURL "https://app.example/js/script.js" "/js/script.js" "https:") "GET" "script".

Definition gallery_request : request :=
  Request (mkURL "https://app.example/gallery/photo.webp" "/gallery/photo.webp" "https:")
    "GET" "image".

Definition served (b : string) : response := Response 200 "OK" [] None b.
Definition stored_at (t : Z) (b : string) : response := Response 200 "OK" [] (Some t) b.
Definition not_found : response := Response 404 "Not Found" [] None "".

(** A network that serves everything, one that is down, one that serves
    everything except [missing], and one that answers 404 to everything. *)
Definition online (t : Z) : env := Env t (fun u => inl (served u)).
Definition offline (t : Z) : env := Env t (fun u => inr (FetchError u)).
Definition all_but (t : Z) (missing : string) : env :=
  Env t (fun u => if String.eqb u missing then inr (FetchError u) else inl (served u)).
Definition answering_404 (t : Z) : env := Env t (fun u => inl not_found).

Definition empty_world : world := World ∅ [] [].
Definition world_with (name : string) (c : cache) : world :=
  World {[ name := c ]} [] [].

Definition network_only_route : route := Route None NETWORK_ONLY "s" 1000 1.

(** ** Activation and the message commands *)

(** [caches.keys()] and [caches.delete(name)] of the CacheStorage.  These
    two calls leave no event in the trace; the order in which [keys] lists
    the names plays no part in what [cleanupOldCaches] leaves. *)
Definition caches_keys : M (list string) :=
  fun w => (Returned (elements (dom (caches w))), w).

Definition caches_delete (name : string) : M bool :=
  fun w =>
    (Returned (bool_decide (is_Some (caches w !! name))),
     set_caches (delete name (caches w)) w).

Definition validCaches : list string :=
  [STATIC_CACHE; DYNAMIC_CACHE; MODEL_CACHE; IMAGE_CACHE].

Definition cleanupOldCaches : M unit :=
  try_catch
    (cacheNames <- caches_keys ;;
     forEach (fun cacheName => _ <- caches_delete cacheName ;; ret tt)
       (List.filter
          (fun cacheName => negb (existsb (String.eqb cacheName) validCaches))
          cacheNames))
    (fun error => ret tt).

(** The promise handed to [event.waitUntil] by the activate listener;
    [clients.claim()] and the two feature checks do not touch the stores. *)
Definition onActivate : M unit :=
  try_catch (cleanupOldCaches ;;; ret tt) (fun error => ret tt).

Definition clearSpecificCache (cacheName : string) : M unit :=
  try_catch
    (_ <- caches_delete cacheName ;; ret tt)
    (fun error => throw error).

(** The commands of the message listener that act on the stores, and what
    is posted back on the port.  [GET_CACHE_USAGE], which reads the storage
    estimate of the browser, is left out. *)
Inductive command :=
  | SKIP_WAITING
  | CLEAR_CACHE (cacheName : string)
  | PREFETCH_MODELS (models : list string).

Inductive reply :=
  | Success
  | Failure (e : error).

(** [promise.then(() => post({ success: true })).catch(error => post({ error }))] *)
Definition replying (m : M unit) : M (option reply) :=
  try_catch (m ;;; ret (Some Success)) (fun error => ret (Some (Failure error))).

Definition onMessage (E : env) (c : command) : M (option reply) :=
  match c with
  | SKIP_WAITING => skipWaiting ;;; ret None
  | CLEAR_CACHE cacheName => replying (clearSpecificCache cacheName)
  | PREFETCH_MODELS models => replying (prefetchModels E models)
  end.

(** ** More observations *)

(** No store holds two entries for one key. *)
Definition unique_keys (w : world) : Prop :=
  forall name, NoDup (store_keys (store_of name w)).

Definition keeps_unique (w w' : world) : Prop :=
  unique_keys w -> unique_keys w'.

(** Between [w] and [w'] only URLs that satisfy [P] were fetched. *)
Definition fetches_within (P : string -> Prop) (w w' : world) : Prop :=
  exists l, trace w' = trace w ++ l /\ forall u, In (EvFetch u) l -> P u.

(** The extensions that the static pattern accepts at the end of a URL. *)
Definition static_extensions : list string :=
  ["css"; "js"; "png"; "jpg"; "jpeg"; "svg"; "woff"; "woff2"; "ttf"; "eot"].

(** A network in which [u] answers with status [s] and everything else is
    served. *)
Definition answering (t : Z) (u : string) (s : Z) : env :=
  Env t (fun v => if String.eqb v u then inl (Response s "" [] None "") else inl (served v)).

(** Every store but [c] holds in [w'] what it held in [w]. *)
Definition untouched_except (c : string) (w w' : world) : Prop :=
  forall name, name <> c -> store_of name w' = store_of name w.

(** The trace of [w'] continues the trace of [w]. *)
Definition continues (w w' : world) : Prop :=
  exists l, trace w' = trace w ++ l.

(** The keywords of the model pattern. *)
Definition model_keywords : list string := ["tensorflow"; "blazeface"; "mobilenet"].

(** The same writes are pending in [w'] as in [w]. *)
Definition same_background (w w' : world) : Prop :=
  background w' = background w.

(** * Properties *)

(** ** The stores across platform calls *)

Lemma store_of_emit name e w : store_of name (emit e w) = store_of name w.
Proof. reflexivity. Qed.

Lemma store_of_opened name c w : store_of name (opened c w) = store_of name w.
Proof.
  unfold opened, store_of; cbn [snd caches emit set_caches].
  destruct (caches w !! c) eqn:Hc; [done|].
  destruct (decide (c = name)) as [->|Hne].
  - by rewrite lookup_insert_eq, Hc.
  - by rewrite lookup_insert_ne.
Qed.

Lemma store_of_put_into name c k r w :
  store_of name (put_into c k r w) =
  if decide (c = name) then store_put k r (store_of c w) else store_of name w.
Proof.
  unfold put_into, store_of; cbn [snd caches emit set_caches].
  destruct (decide (c = name)) as [->|Hne].
  - by rewrite lookup_insert_eq.
  - by rewrite lookup_insert_ne.
Qed.

Lemma store_of_deleted_from name c k w :
  store_of name (deleted_from c k w) =
  if decide (c = name) then store_delete k (store_of c w) else store_of name w.
Proof.
  unfold deleted_from, store_of; cbn [snd caches emit set_caches].
  destruct (decide (c = name)) as [->|Hne].
  - by rewrite lookup_insert_eq.
  - by rewrite lookup_insert_ne.
Qed.

Lemma store_lookup_emit name k e w :
  store_lookup name k (emit e w) = store_lookup name k w.
Proof. reflexivity. Qed.

Lemma store_lookup_opened name k c w :
  store_lookup name k (opened c w) = store_lookup name k w.
Proof. unfold store_lookup. by rewrite store_of_opened. Qed.

Lemma new_events_app w w' l : trace w' = trace w ++ l -> new_events w w' = l.
Proof. unfold new_events. intros ->. by rewrite drop_app_length. Qed.

Lemma forEach_cons_returned {A} (f : A -> M unit) x l w w1 :
  f x w = (Returned tt, w1) -> forEach f (x :: l) w = forEach f l w1.
Proof. intros H. cbn [forEach]. unfold bind. by rewrite H. Qed.

(** ** What the Cache accepts *)

Lemma storable_stamped E r : storable (stamped E r) = negb (status r =? 206).
Proof. unfold storable, stamped, vary_star. cbn. apply andb_true_r. Qed.

Lemma cache_put_storable c k r w :
  storable r = true -> cache_put c k r w = (Returned tt, put_into c k r w).
Proof. intros H. unfold cache_put. by rewrite H. Qed.

Lemma cache_put_rejected c k r w :
  storable r = false -> cache_put c k r w = (Thrown put_rejected, emit (EvPut c k) w).
Proof. intros H. unfold cache_put. by rewrite H. Qed.

Lemma cacheResponse_eq E c req r w :
  cacheResponse E c req r w =
  if status r =? 206 then (Thrown put_rejected, emit (EvPut c (key_of req)) w)
  else (Returned tt, put_into c (key_of req) (stamped E r) w).
Proof.
  unfold cacheResponse, cache_put. rewrite storable_stamped.
  by destruct (status r =? 206).
Qed.

Lemma trace_put_into c k r w : trace (put_into c k r w) = trace w ++ [EvPut c k].
Proof. reflexivity. Qed.

(** A put that nobody awaits: stored if the Cache accepts it, lost
    otherwise. *)
Lemma lenient_put_eq c k r w :
  try_catch (cache_put c k r) (fun _ => ret tt) w =
  (Returned tt, if storable r then put_into c k r w else emit (EvPut c k) w).
Proof. unfold try_catch, cache_put, ret. by destruct (storable r). Qed.

(** ** One run of [cacheFirst] and [networkFirst], case by case *)

Lemma cacheFirst_fresh E req name d w r :
  store_lookup name (key_of req) w = Some r ->
  isExpired E r d = false ->
  cacheFirst E req name d w =
  (Returned r, emit (EvMatch name (key_of req)) (opened name w)).
Proof.
  intros Hl Hx. unfold cacheFirst, bind, caches_open, cache_match.
  by rewrite store_lookup_opened, Hl, Hx.
Qed.

Lemma cacheFirst_consults_network E req name d w :
  match store_lookup name (key_of req) w with
  | Some r => isExpired E r d = true
  | None => True
  end ->
  cacheFirst E req name d w =
  cacheFirst_network E name req (store_lookup name (key_of req) w)
    (emit (EvMatch name (key_of req)) (opened name w)).
Proof.
  intros Hx. unfold cacheFirst, bind, caches_open, cache_match.
  rewrite store_lookup_opened.
  destruct (store_lookup name (key_of req) w); [by rewrite Hx|done].
Qed.

Lemma cacheFirst_network_failure E c req cached w e :
  net E (key_of req) = inr e ->
  cacheFirst_network E c req cached w =
  (match cached with Some r => Returned r | None => Thrown e end,
   emit (EvFetch (key_of req)) w).
Proof.
  intros Hn. unfold cacheFirst_network, try_catch, bind, fetch. rewrite Hn.
  by destruct cached.
Qed.

Lemma cacheFirst_network_trace E c req cached w :
  exists l, trace (cacheFirst_network E c req cached w).2 =
            trace w ++ EvFetch (key_of req) :: l.
Proof.
  unfold cacheFirst_network, try_catch, bind, fetch, ret, throw.
  destruct (net E (key_of req)) as [r|e].
  - destruct (ok r); [|by exists []].
    rewrite cacheResponse_eq. exists [EvPut c (key_of req)].
    destruct (status r =? 206); [destruct cached|]; cbn; by rewrite <- app_assoc.
  - destruct cached; cbn; by exists [].
Qed.

Lemma networkFirst_failure E req name d w e :
  net E (key_of req) = inr e ->
  (networkFirst E req name d w).1 =
  match store_lookup name (key_of req) w with
  | Some r => Returned r
  | None => Thrown e
  end.
Proof.
  intros Hn. unfold networkFirst, bind, try_catch, fetch, caches_open, cache_match.
  rewrite Hn, store_lookup_emit, store_lookup_opened.
  by destruct (store_lookup name (key_of req) w).
Qed.

Lemma trace_opened name w : trace (opened name w) = trace w ++ [EvOpen name].
Proof. reflexivity. Qed.

Lemma not_fetch_attempted_fresh E req name d w r :
  store_lookup name (key_of req) w = Some r ->
  isExpired E r d = false ->
  ~ fetch_attempted (cacheFirst E req name d) w (key_of req).
Proof.
  intros Hl Hx. unfold fetch_attempted.
  rewrite (cacheFirst_fresh _ _ _ _ _ _ Hl Hx).
  rewrite (new_events_app _ _ [EvOpen name; EvMatch name (key_of req)]).
  - cbn. intros [H|[H|[]]]; discriminate.
  - cbn. by rewrite <- app_assoc.
Qed.

Lemma fetch_attempted_expired E req name d w :
  match store_lookup name (key_of req) w with
  | Some r => isExpired E r d = true
  | None => True
  end ->
  fetch_attempted (cacheFirst E req name d) w (key_of req).
Proof.
  intros Hx. unfold fetch_attempted.
  rewrite (cacheFirst_consults_network _ _ _ _ _ Hx).
  destruct (cacheFirst_network_trace E name req (store_lookup name (key_of req) w)
              (emit (EvMatch name (key_of req)) (opened name w))) as [l Hl].
  rewrite (new_events_app _ _ ([EvOpen name; EvMatch name (key_of req)] ++ EvFetch (key_of req) :: l)).
  - cbn. auto.
  - rewrite Hl. cbn. by rewrite <- !app_assoc.
Qed.

(** ** Freshness threshold of [cacheFirst] *)

(** C1 (as amended): for an entry stamped [insertedAt = t0] and a policy
    with [maxAge = d], a CACHE_FIRST lookup at time [t <= t0 + d] returns
    the cached entry without any network fetch, and a lookup at
    [t > t0 + d] issues a network fetch; an entry is fresh exactly when
    its age [now - insertedAt] is at most [maxAge]. *)
Theorem cacheFirst_freshness_threshold E req name d w r t0
    (Hentry : store_lookup name (key_of req) w = Some r)
    (Hstamp : swCacheTime r = Some t0) :
  (now E <= t0 + d ->
     (cacheFirst E req name d w).1 = Returned r /\
     ~ fetch_attempted (cacheFirst E req name d) w (key_of req)) /\
  (t0 + d < now E ->
     fetch_attempted (cacheFirst E req name d) w (key_of req)) /\
  (isExpired E r d = false <-> now E - t0 <= d).
Proof.
  assert (Hx : isExpired E r d = false <-> now E - t0 <= d).
  { unfold isExpired, cacheTime. rewrite Hstamp. cbn. rewrite Z.gtb_ltb, Z.ltb_ge. done. }
  split; [|split; [|exact Hx]].
  - intros Ht. assert (isExpired E r d = false) as Hf by (apply Hx; lia).
    split.
    + by rewrite (cacheFirst_fresh _ _ _ _ _ _ Hentry Hf).
    + by apply (not_fetch_attempted_fresh _ _ _ _ _ r).
  - intros Ht. apply fetch_attempted_expired. rewrite Hentry.
    destruct (isExpired E r d); [done|].
    assert (now E - t0 <= d) by (by apply Hx). lia.
Qed.

Lemma cacheFirst_freshness_threshold_witness :
  (cacheFirst (offline 1500) logo_request "s" 500
     (world_with "s" [(key_of logo_request, stored_at 1000 "logo")])).1
  = Returned (stored_at 1000 "logo").
Proof.
  apply (cacheFirst_freshness_threshold (offline 1500) logo_request "s" 500
           (world_with "s" [(key_of logo_request, stored_at 1000 "logo")])
           (stored_at 1000 "logo") 1000).
  - vm_compute. reflexivity.
  - reflexivity.
  - vm_compute. discriminate.
Defined.

(** C1 (as stated) fails on the threshold itself: at [t = t0 + d] the
    cached entry is still served and no fetch is issued. *)
Lemma strict_freshness_fails_at_threshold :
  ~ strict_freshness (online 1500) logo_request "s" 500
      (world_with "s" [(key_of logo_request, stored_at 1000 "logo")]).
Proof.
  intros H.
  destruct (H (stored_at 1000 "logo") 1000) as [_ Hnet].
  - vm_compute. reflexivity.
  - reflexivity.
  - assert (Hle : 1000 + 500 <= now (online 1500)) by (vm_compute; discriminate).
    specialize (Hnet Hle). unfold fetch_attempted in Hnet.
    vm_compute in Hnet. intuition discriminate.
Qed.

(** ** Serving stale entries when the network fails *)

Lemma cacheFirst_failure E req name d w e :
  net E (key_of req) = inr e ->
  (cacheFirst E req name d w).1 =
  match store_lookup name (key_of req) w with
  | Some r => Returned r
  | None => Thrown e
  end.
Proof.
  intros Hn.
  destruct (store_lookup name (key_of req) w) as [r|] eqn:Hl.
  - destruct (isExpired E r d) eqn:Hx.
    + rewrite cacheFirst_consults_network by (by rewrite Hl).
      rewrite (cacheFirst_network_failure _ _ _ _ _ e Hn). by rewrite Hl.
    + by rewrite (cacheFirst_fresh _ _ _ _ _ _ Hl Hx).
  - rewrite cacheFirst_consults_network by (by rewrite Hl).
    rewrite (cacheFirst_network_failure _ _ _ _ _ e Hn). by rewrite Hl.
Qed.

(** C4: when the network fetch throws, CACHE_FIRST and NETWORK_FIRST return
    the cached entry for the request's key if the store has one, whatever
    its age and whatever [maxAge]; the failure of the fetch reaches the
    caller exactly when the store has no entry for that key. *)
Theorem stale_entry_served_on_network_failure E req name d w e
    (Hnet : net E (key_of req) = inr e) :
  let cached := store_lookup name (key_of req) w in
  (forall r, cached = Some r ->
     (cacheFirst E req name d w).1 = Returned r /\
     (networkFirst E req name d w).1 = Returned r) /\
  ((cacheFirst E req name d w).1 = Thrown e <-> cached = None) /\
  ((networkFirst E req name d w).1 = Thrown e <-> cached = None).
Proof.
  intros cached. subst cached.
  rewrite (cacheFirst_failure _ _ _ d _ _ Hnet), (networkFirst_failure _ _ _ d _ _ Hnet).
  destruct (store_lookup name (key_of req) w) as [r|].
  - split; [|split]; [intros r' [= <-]; done | split; discriminate | split; discriminate].
  - split; [|split]; [discriminate | done | done].
Qed.

Lemma stale_entry_served_on_network_failure_witness :
  (cacheFirst (offline 9000) logo_request "s" 500
     (world_with "s" [(key_of logo_request, stored_at 1000 "logo")])).1
    = Returned (stored_at 1000 "logo") /\
  (networkFirst (offline 9000) logo_request "s" 500
     (world_with "s" [(key_of logo_request, stored_at 1000 "logo")])).1
    = Returned (stored_at 1000 "logo").
Proof.
  apply (stale_entry_served_on_network_failure (offline 9000) logo_request "s" 500
           (world_with "s" [(key_of logo_request, stored_at 1000 "logo")])
           (FetchError (key_of logo_request))).
  - reflexivity.
  - vm_compute. reflexivity.
Defined.

(** ** Eviction *)

Lemma store_delete_cons k k' r c :
  store_delete k ((k', r) :: c) =
  if String.eqb k' k then store_delete k c else (k', r) :: store_delete k c.
Proof. unfold store_delete. cbn. by destruct (String.eqb k' k). Qed.

Lemma store_keys_cons k r c : store_keys ((k, r) :: c) = k :: store_keys c.
Proof. reflexivity. Qed.

Lemma length_store_keys c : length (store_keys c) = length c.
Proof. apply length_map. Qed.

Lemma store_delete_absent k c : k ∉ store_keys c -> store_delete k c = c.
Proof.
  induction c as [|[k' r] c IH]; [done|].
  rewrite store_keys_cons, store_delete_cons. intros Hk.
  apply not_elem_of_cons in Hk as [Hne Hk].
  destruct (String.eqb_spec k' k) as [->|_]; [done|]. by rewrite IH.
Qed.

Lemma store_delete_head k r c :
  k ∉ store_keys c -> store_delete k ((k, r) :: c) = c.
Proof.
  intros Hk. rewrite store_delete_cons, String.eqb_refl.
  by apply store_delete_absent.
Qed.

Lemma store_delete_app k c1 c2 :
  store_delete k (c1 ++ c2) = store_delete k c1 ++ store_delete k c2.
Proof. apply List.filter_app. Qed.

Lemma store_keys_app c1 c2 : store_keys (c1 ++ c2) = store_keys c1 ++ store_keys c2.
Proof. apply List.map_app. Qed.

Lemma elem_of_keys_delete x k c :
  x ∈ store_keys (store_delete k c) <-> x ∈ store_keys c /\ x <> k.
Proof.
  induction c as [|[k' r] c IH].
  - cbn. split; [intros H; inversion H | intros [H _]; inversion H].
  - rewrite store_delete_cons.
    destruct (String.eqb_spec k' k) as [->|Hne]; rewrite ?store_keys_cons, ?elem_of_cons, IH;
      intuition congruence.
Qed.

Lemma NoDup_keys_delete k c : NoDup (store_keys c) -> NoDup (store_keys (store_delete k c)).
Proof.
  induction c as [|[k' r] c IH]; [done|].
  rewrite store_keys_cons, store_delete_cons, NoDup_cons. intros [Hk Hc].
  destruct (String.eqb_spec k' k) as [->|Hne]; [by apply IH|].
  rewrite store_keys_cons. apply NoDup_cons. split; [|by apply IH].
  rewrite elem_of_keys_delete. tauto.
Qed.

Lemma NoDup_keys_put k r c : NoDup (store_keys c) -> NoDup (store_keys (store_put k r c)).
Proof.
  intros Hc. unfold store_put. rewrite store_keys_app. apply NoDup_app.
  split; [by apply NoDup_keys_delete|]. split.
  - intros x Hx Hin. apply elem_of_keys_delete in Hx as [_ Hne].
    cbn in Hin. apply list_elem_of_singleton in Hin. done.
  - cbn. apply NoDup_singleton.
Qed.

Lemma length_delete_NoDup k c :
  NoDup (store_keys c) -> (length c <= S (length (store_delete k c)))%nat.
Proof.
  induction c as [|[k' r] c IH]; [cbn; lia|].
  rewrite store_keys_cons, store_delete_cons, NoDup_cons. intros [Hk Hc].
  destruct (String.eqb_spec k' k) as [->|Hne].
  - rewrite store_delete_absent by done. cbn. lia.
  - specialize (IH Hc). cbn. lia.
Qed.

Lemma fold_delete_take c d :
  NoDup (store_keys c) ->
  fold_left (fun s k => store_delete k s) (take d (store_keys c)) c = drop d c.
Proof.
  revert d. induction c as [|[k r] c IH]; intros d Hc.
  - by destruct d.
  - destruct d as [|d]; [done|].
    rewrite store_keys_cons in *. cbn [take firstn fold_left drop skipn].
    apply NoDup_cons in Hc as [Hk Hc].
    rewrite store_delete_head by done. by apply IH.
Qed.

Lemma trim_drop N c :
  0 <= N -> NoDup (store_keys c) -> trim N c = drop (length c - Z.to_nat N) c.
Proof.
  intros HN Hc. unfold trim. destruct (Z.gtb_spec (Z.of_nat (length c)) N) as [Hgt|Hle].
  - rewrite fold_delete_take by done. f_equal. lia.
  - replace (length c - Z.to_nat N)%nat with 0%nat by lia. done.
Qed.

Lemma retained_NoDup n P S : retained n P S -> NoDup (store_keys S).
Proof.
  intros [HP (p & -> & _)]. rewrite store_keys_app in HP.
  by apply NoDup_app in HP as (_ & _ & HS).
Qed.

Lemma retained_put n P S k r :
  retained n P S -> retained n (store_put k r P) (store_put k r S).
Proof.
  intros HR. pose proof (retained_NoDup _ _ _ HR) as HS.
  destruct HR as [HP (p & -> & Hp)]. split; [by apply NoDup_keys_put|].
  exists (store_delete k p). split.
  - unfold store_put. by rewrite store_delete_app, <- app_assoc.
  - destruct Hp as [->|Hn]; [by left|right].
    unfold store_put. rewrite length_app. cbn.
    pose proof (length_delete_NoDup k S HS). lia.
Qed.

Lemma retained_trim N P S :
  0 <= N -> retained (Z.to_nat N) P S -> retained (Z.to_nat N) P (trim N S).
Proof.
  intros HN HR. pose proof (retained_NoDup _ _ _ HR) as HS.
  destruct HR as [HP (p & -> & Hp)]. split; [done|].
  rewrite trim_drop by done.
  exists (p ++ take (length S - Z.to_nat N) S). split.
  - by rewrite <- app_assoc, take_drop.
  - destruct (decide (length S <= Z.to_nat N)%nat) as [Hle|Hgt].
    + replace (length S - Z.to_nat N)%nat with 0%nat by lia.
      rewrite take_0, app_nil_r, drop_0. done.
    + right. rewrite length_drop. lia.
Qed.

Lemma replay_cons op ops P :
  replay P (op :: ops) =
  replay (match written op with Some (k, r) => store_put k r P | None => P end) ops.
Proof. reflexivity. Qed.

Lemma retained_steps N ops P S :
  0 <= N -> retained (Z.to_nat N) P S ->
  retained (Z.to_nat N) (replay P ops) (fold_left (step_store N) ops S).
Proof.
  intros HN. revert P S. induction ops as [|op ops IH]; intros P S HR; [done|].
  cbn [fold_left]. rewrite replay_cons. apply IH. unfold step_store.
  destruct op as [E req r|k r|]; cbn [written].
  - destruct (storable (stamped E r)); [by apply retained_put|done].
  - destruct (storable r); [by apply retained_put|done].
  - by apply retained_trim.
Qed.

Lemma retained_last_n N P S :
  0 <= N -> retained (Z.to_nat N) P S ->
  trim N S = last_n (Z.to_nat N) P /\ (length (trim N S) <= Z.to_nat N)%nat.
Proof.
  intros HN HR. pose proof (retained_NoDup _ _ _ HR) as HS.
  destruct HR as [HP (p & -> & Hp)]. rewrite trim_drop by done.
  split; [|rewrite length_drop; lia].
  unfold last_n. destruct Hp as [->|Hn]; [done|].
  rewrite length_app.
  replace (length p + length S - Z.to_nat N)%nat
    with (length p + (length S - Z.to_nat N))%nat by lia.
  by rewrite drop_app_add.
Qed.

(** The keys of the written entries are the keys of the writes, each
    once, in the order of their last write. *)

Lemma last_writes_NoDup l : NoDup l -> last_writes l = l.
Proof.
  induction l as [|k l IH]; [done|]. rewrite NoDup_cons. intros [Hk Hl].
  cbn. destruct (decide (k ∈ l)); [done|]. by rewrite IH.
Qed.

Lemma last_writes_rewrite k l m :
  last_writes (store_keys (store_delete k l) ++ k :: m) =
  last_writes (store_keys l ++ k :: m).
Proof.
  induction l as [|[x r] l IH]; [done|].
  rewrite store_delete_cons.
  destruct (String.eqb_spec x k) as [->|Hne].
  - rewrite IH, store_keys_cons. cbn [app last_writes].
    destruct (decide (k ∈ store_keys l ++ k :: m)) as [|Hn]; [done|].
    exfalso. apply Hn. apply elem_of_app. right. apply elem_of_cons. by left.
  - rewrite !store_keys_cons. cbn [app last_writes]. rewrite IH.
    destruct (decide (x ∈ store_keys (store_delete k l) ++ k :: m)) as [H1|H1];
      destruct (decide (x ∈ store_keys l ++ k :: m)) as [H2|H2]; try done; exfalso.
    + apply H2. rewrite elem_of_app, elem_of_keys_delete in H1.
      rewrite elem_of_app. tauto.
    + apply H1. rewrite elem_of_app in H2.
      rewrite elem_of_app, elem_of_keys_delete, elem_of_cons in *. tauto.
Qed.

Lemma written_keys_cons op ops :
  written_keys (op :: ops) =
  match written op with
  | Some (k, _) => k :: written_keys ops
  | None => written_keys ops
  end.
Proof. unfold written_keys. cbn. by destruct (written op) as [[k r]|]. Qed.

Lemma replay_keys ops P :
  NoDup (store_keys P) ->
  store_keys (replay P ops) = last_writes (store_keys P ++ written_keys ops).
Proof.
  revert P. induction ops as [|op ops IH]; intros P HP.
  - cbn. rewrite app_nil_r. by rewrite last_writes_NoDup.
  - rewrite replay_cons, written_keys_cons.
    destruct (written op) as [[k r]|]; [|by apply IH].
    rewrite IH by (by apply NoDup_keys_put).
    unfold store_put. rewrite store_keys_app. cbn [store_keys List.map fst].
    rewrite <- app_assoc. cbn [app]. apply last_writes_rewrite.
Qed.

(** The eviction step and the writes, seen on the store they act on. *)

Lemma forEach_delete_store c ks w :
  (forEach (cache_delete c) ks w).1 = Returned tt /\
  store_of c (forEach (cache_delete c) ks w).2 =
  fold_left (fun s k => store_delete k s) ks (store_of c w).
Proof.
  revert w. induction ks as [|k ks IH]; intros w; [done|].
  cbn [forEach fold_left]. unfold bind, cache_delete.
  destruct (IH (deleted_from c k w)) as [H1 H2].
  rewrite store_of_deleted_from, decide_True in H2 by done. done.
Qed.

Lemma cleanupCache_store name N w :
  N <> 0 ->
  (cleanupCache name N w).1 = Returned tt /\
  store_of name (cleanupCache name N w).2 = trim N (store_of name w).
Proof.
  intros HN. unfold cleanupCache. rewrite (proj2 (Z.eqb_neq N 0) HN).
  unfold try_catch, bind, caches_open, cache_keys, trim.
  rewrite store_of_opened.
  rewrite !length_store_keys.
  destruct (Z.of_nat (length (store_of name w)) >? N).
  - pose proof (forEach_delete_store name
      (take (Z.to_nat (Z.of_nat (length (store_of name w)) - N))
         (store_keys (store_of name w))) (emit (EvKeys name) (opened name w))) as [H1 H2].
    rewrite store_of_emit, store_of_opened in H2.
    destruct (forEach _ _ _) as [o2 w2]. cbn in H1, H2. subst o2. done.
  - split; [done|]. cbn [snd ret]. by rewrite store_of_emit, store_of_opened.
Qed.

Lemma run_op_store name N op w :
  N <> 0 ->
  (run_op name N op w).1 = Returned tt /\
  store_of name (run_op name N op w).2 = step_store N (store_of name w) op.
Proof.
  intros HN. destruct op as [E req r|k r|]; unfold run_op, step_store; cbn [written].
  - unfold cacheResponse, try_catch, cache_put.
    destruct (storable (stamped E r)); cbn [fst snd ret]; [|done].
    rewrite store_of_put_into, decide_True by done. done.
  - unfold try_catch, cache_put.
    destruct (storable r); cbn [fst snd ret]; [|done].
    rewrite store_of_put_into, decide_True by done. done.
  - by apply cleanupCache_store.
Qed.

Lemma forEach_run_op_store name N ops w :
  N <> 0 ->
  store_of name (forEach (run_op name N) ops w).2 =
  fold_left (step_store N) ops (store_of name w).
Proof.
  intros HN. revert w. induction ops as [|op ops IH]; intros w; [done|].
  cbn [forEach fold_left]. unfold bind.
  destruct (run_op_store name N op w HN) as [H1 H2].
  destruct (run_op name N op w) as [o w1]. cbn in H1, H2. subst o.
  rewrite <- H2. apply IH.
Qed.

(** C2: take any sequence of writes to a store (through [cacheResponse] or
    by a bare [cache.put]), with eviction steps of the policy anywhere in
    between, starting from the empty store, under [maxEntries = N > 0].
    After the eviction step that follows, the store holds at most [N]
    entries; eviction removed the oldest [count - N] entries in insertion
    order; and the keys retained are exactly the [N] most recently written
    keys, in the order of their last write, each with the response of its
    last write. *)
Theorem eviction_keeps_most_recent name N ops w
    (HN : 0 < N) (Hempty : store_of name w = []) :
  let w1 := (forEach (run_op name N) ops w).2 in
  let w2 := (cleanupCache name N w1).2 in
  Z.of_nat (length (store_of name w2)) <= N /\
  store_of name w2 =
    drop (length (store_of name w1) - Z.to_nat N) (store_of name w1) /\
  store_keys (store_of name w2) =
    last_n (Z.to_nat N) (last_writes (written_keys ops)) /\
  store_of name w2 = last_n (Z.to_nat N) (replay [] ops).
Proof.
  intros w1 w2.
  assert (HN0 : N <> 0) by lia. assert (HNle : 0 <= N) by lia.
  assert (HR : retained (Z.to_nat N) (replay [] ops) (store_of name w1)).
  { subst w1. rewrite forEach_run_op_store, Hempty by done.
    apply retained_steps; [done|]. split; [apply NoDup_nil_2|].
    exists []. split; [done|by left]. }
  destruct (cleanupCache_store name N w1 HN0) as [_ Hs]. fold w2 in Hs.
  destruct (retained_last_n N _ _ HNle HR) as [Hlast Hlen].
  rewrite Hs. split; [lia|]. split; [|split; [|exact Hlast]].
  - apply trim_drop; [done|]. by apply (retained_NoDup _ _ _ HR).
  - rewrite Hlast. pose proof (replay_keys ops [] (NoDup_nil_2)) as Hk.
    change (store_keys [] ++ written_keys ops) with (written_keys ops) in Hk.
    rewrite <- Hk. unfold last_n. rewrite length_store_keys.
    unfold store_keys. by rewrite List.skipn_map.
Qed.

Lemma eviction_keeps_most_recent_witness :
  let ops := [Bare "a" (served "1"); Stamped (online 5) logo_request (served "2");
              Bare "c" (served "3"); Trim; Bare "a" (served "4")] in
  let w1 := (forEach (run_op "s" 2) ops empty_world).2 in
  store_keys (store_of "s" (cleanupCache "s" 2 w1).2) =
  last_n 2 (last_writes (written_keys ops)).
Proof.
  intros ops.
  apply (eviction_keeps_most_recent "s" 2 ops empty_world); [lia | reflexivity].
Defined.

Example eviction_run :
  let ops := [Bare "a" (served "1"); Stamped (online 5) logo_request (served "2");
              Bare "c" (served "3"); Trim; Bare "a" (served "4")] in
  let w1 := (forEach (run_op "s" 2) ops empty_world).2 in
  store_keys (store_of "s" w1) = [key_of logo_request; "c"; "a"] /\
  store_keys (store_of "s" (cleanupCache "s" 2 w1).2) = ["c"; "a"] /\
  last_n 2 (last_writes (written_keys ops)) = ["c"; "a"].
Proof. vm_compute. auto. Qed.

(** ** Route classification *)

Lemma findMatchingRoute_cases u req :
  findMatchingRoute u req =
  if route_matches u route_static then route_static
  else if route_matches u route_models then route_models
  else if route_matches u route_images then route_images
  else if route_matches u route_api then route_api
  else if route_matches u route_html then route_html
  else route_default.
Proof.
  unfold findMatchingRoute, ROUTE_CONFIG. cbn [List.find snd].
  repeat match goal with
         | |- context [if ?b then _ else _] => destruct b; try reflexivity
         end.
Qed.

(** C9: the route table is tried in a fixed order, the first matching rule
    wins, and the static-asset and model rules come before the image rule;
    [https://cdn.example/app/logo.png] matches both the static and the
    image pattern and is given the static policy: CACHE_FIRST on the
    static store. *)
Theorem static_and_model_routes_precede_images :
  (forall u req,
     findMatchingRoute u req =
     if route_matches u route_static then route_static
     else if route_matches u route_models then route_models
     else if route_matches u route_images then route_images
     else if route_matches u route_api then route_api
     else if route_matches u route_html then route_html
     else route_default) /\
  route_matches logo_url route_static = true /\
  route_matches logo_url route_images = true /\
  findMatchingRoute logo_url logo_request = route_static /\
  strategy (findMatchingRoute logo_url logo_request) = CACHE_FIRST /\
  cacheName (findMatchingRoute logo_url logo_request) = STATIC_CACHE /\
  strategy route_images = STALE_WHILE_REVALIDATE /\
  (forall E, onFetch E logo_request = Some (handleRequest E logo_request route_static)).
Proof.
  split; [exact findMatchingRoute_cases|].
  repeat split; try (vm_compute; reflexivity).
Qed.

(** ** Offline fallback *)

(** C7 (as amended): [handleOfflineFallback] returns a response exactly for
    the [document] and [image] destinations; for every other destination it
    throws the error "Offline and no cached response available". *)
Theorem handleOfflineFallback_outcome req w :
  match (handleOfflineFallback req w).1 with
  | Returned _ => destination req = "document" \/ destination req = "image"
  | Thrown e =>
      destination req <> "document" /\ destination req <> "image" /\
      e = JsError "Offline and no cached response available"
  end.
Proof.
  unfold handleOfflineFallback.
  destruct (String.eqb_spec (destination req) "document") as [Hd|Hd].
  - unfold bind, caches_open, cache_match, ret.
    destruct (store_lookup STATIC_CACHE "/" _); cbn.
    + by left.
    + destruct (store_lookup STATIC_CACHE "/index.html" _); cbn; by left.
  - destruct (String.eqb_spec (destination req) "image") as [Hi|Hi]; cbn.
    + by right.
    + done.
Qed.

(** C7 (as stated) fails for a destination other than [document] and
    [image]: the fallback for a script request throws. *)
Lemma fallback_throws_for_script :
  ~ fallback_never_throws script_request empty_world.
Proof. intros [r Hr]. vm_compute in Hr. discriminate. Qed.

(** ** [staleWhileRevalidate] *)

Lemma staleWhileRevalidate_eq E req name d w :
  staleWhileRevalidate E req name d w =
  let k := key_of req in
  let w1 := emit (EvFetch k) (emit (EvMatch name k) (opened name w)) in
  match net E k with
  | inl r =>
      (Returned (match store_lookup name k w with Some c => Resp c | None => Resp r end),
       if ok r then queued name k (stamped E r) w1 else w1)
  | inr e =>
      (Returned (match store_lookup name k w with Some c => Resp c | None => Undefined end),
       w1)
  end.
Proof.
  unfold staleWhileRevalidate, bind, caches_open, cache_match, networkPromise,
    try_catch, bind, fetch.
  rewrite store_lookup_opened.
  destruct (net E (key_of req)) as [r|e]; cbn.
  - unfold cacheResponse_detached, ret. destruct (ok r);
      by destruct (store_lookup name (key_of req) w).
  - by destruct (store_lookup name (key_of req) w).
Qed.

Lemma staleWhileRevalidate_miss_failure E req name d w e :
  net E (key_of req) = inr e ->
  store_lookup name (key_of req) w = None ->
  (staleWhileRevalidate E req name d w).1 = Returned Undefined.
Proof. intros Hn Hl. rewrite staleWhileRevalidate_eq. cbn. by rewrite Hn, Hl. Qed.

(** C5 (the code at a failing input): a request for an image that is not
    in the image store, while the network is down.  [staleWhileRevalidate]
    does not deliver the failure: it returns [undefined], and so does
    [handleRequest], which therefore never reaches the offline fallback. *)
Theorem staleWhileRevalidate_swallows_failure :
  findMatchingRoute (url gallery_request) gallery_request = route_images /\
  store_lookup IMAGE_CACHE (key_of gallery_request) empty_world = None /\
  net (offline 1000) (key_of gallery_request) = inr (FetchError (key_of gallery_request)) /\
  (staleWhileRevalidate (offline 1000) gallery_request IMAGE_CACHE (maxAge route_images)
     empty_world).1 = Returned Undefined /\
  (handleRequest (offline 1000) gallery_request route_images empty_world).1
    = Returned Undefined.
Proof. repeat split; vm_compute; reflexivity. Qed.

(** ** Install *)

Lemma onInstall_never_rejects E w : (onInstall E w).1 = Returned tt.
Proof.
  unfold onInstall, try_catch.
  match goal with |- context [let (_, _) := ?m w in _] => destruct (m w) as [[[]|e] w'] end;
    reflexivity.
Qed.

(** C3 (the code at a failing input): the fetch of [/js/script.js], an
    asset of the install manifest, fails.  Nothing is stored in the static
    store and [skipWaiting] is not called, but the promise handed to
    [waitUntil] is fulfilled, not rejected. *)
Theorem install_fulfilled_despite_missing_asset :
  let E := all_but 0 "/js/script.js" in
  let res := onInstall E empty_world in
  In "/js/script.js" STATIC_ASSETS /\
  net E "/js/script.js" = inr (FetchError "/js/script.js") /\
  res.1 = Returned tt /\
  store_of STATIC_CACHE res.2 = [] /\
  ~ In EvSkipWaiting (trace res.2).
Proof.
  cbv zeta. split; [cbn; tauto|]. split; [reflexivity|].
  split; [apply onInstall_never_rejects|].
  split; [vm_compute; reflexivity|].
  vm_compute. intuition discriminate.
Qed.

(** ** Responses that are not [ok] *)

Lemma same_contents_refl w : same_contents w w.
Proof. by split. Qed.

Lemma same_contents_trans w1 w2 w3 :
  same_contents w1 w2 -> same_contents w2 w3 -> same_contents w1 w3.
Proof.
  intros [H1 H2] [H3 H4]. split.
  - intros name. by rewrite H3, H1.
  - by rewrite H4, H2.
Qed.

Lemma same_contents_emit e w : same_contents w (emit e w).
Proof. by split. Qed.

Lemma same_contents_opened name w : same_contents w (opened name w).
Proof. split; [intros n; apply store_of_opened | done]. Qed.

Lemma same_contents_read name e1 e2 w :
  same_contents w (emit e1 (emit e2 (opened name w))).
Proof. split; [intros n; apply store_of_opened | done]. Qed.

Lemma cacheFirst_network_not_ok E c req cached w r :
  net E (key_of req) = inl r -> ok r = false ->
  cacheFirst_network E c req cached w = (Returned r, emit (EvFetch (key_of req)) w).
Proof.
  intros Hn Hok. unfold cacheFirst_network, try_catch, bind, fetch.
  by rewrite Hn, Hok.
Qed.

Lemma networkFirst_not_ok E req name d w r :
  net E (key_of req) = inl r -> ok r = false ->
  networkFirst E req name d w =
  (Returned r, emit (EvFetch (key_of req)) (opened name w)).
Proof.
  intros Hn Hok. unfold networkFirst, try_catch, bind, fetch, caches_open.
  by rewrite Hn, Hok.
Qed.

Lemma cacheFirst_not_ok E req name d w r :
  net E (key_of req) = inl r -> ok r = false ->
  (cacheFirst E req name d w).1 =
    Returned (match store_lookup name (key_of req) w with
              | Some c => if isExpired E c d then r else c
              | None => r
              end) /\
  same_contents w (cacheFirst E req name d w).2.
Proof.
  intros Hn Hok.
  destruct (store_lookup name (key_of req) w) as [c|] eqn:Hl.
  - destruct (isExpired E c d) eqn:Hx.
    + rewrite cacheFirst_consults_network by (by rewrite Hl).
      rewrite (cacheFirst_network_not_ok _ _ _ _ _ r Hn Hok).
      split; [done|apply same_contents_read].
    + rewrite (cacheFirst_fresh _ _ _ _ _ _ Hl Hx).
      split; [done|]. split; [intros n; apply store_of_opened | done].
  - rewrite cacheFirst_consults_network by (by rewrite Hl).
    rewrite (cacheFirst_network_not_ok _ _ _ _ _ r Hn Hok).
    split; [done|apply same_contents_read].
Qed.

(** C10 (as amended): a network response whose [ok] flag is false is never
    written: after [cacheFirst], [networkFirst] and [staleWhileRevalidate]
    have handled it, every store holds what it held (so the entry for the
    key, present or absent, is unchanged) and no write is pending.  The
    response is what the caller gets from [networkFirst]; from [cacheFirst]
    when the store has no entry for the key or an expired one; and from
    [staleWhileRevalidate] when the store has no entry for the key.  With an
    entry, [staleWhileRevalidate] returns the cached entry, as does
    [cacheFirst] with a fresh one. *)
Theorem failed_response_is_not_cached E req name d w r
    (Hnet : net E (key_of req) = inl r) (Hok : ok r = false) :
  same_contents w (cacheFirst E req name d w).2 /\
  same_contents w (networkFirst E req name d w).2 /\
  same_contents w (staleWhileRevalidate E req name d w).2 /\
  (networkFirst E req name d w).1 = Returned r /\
  (cacheFirst E req name d w).1 =
    Returned (match store_lookup name (key_of req) w with
              | Some c => if isExpired E c d then r else c
              | None => r
              end) /\
  (staleWhileRevalidate E req name d w).1 =
    Returned (Resp (match store_lookup name (key_of req) w with
                    | Some c => c
                    | None => r
                    end)).
Proof.
  destruct (cacheFirst_not_ok E req name d w r Hnet Hok) as [Hc1 Hc2].
  rewrite (networkFirst_not_ok _ _ _ d w r Hnet Hok), staleWhileRevalidate_eq.
  cbv zeta. rewrite Hnet, Hok. cbn [fst snd].
  split; [exact Hc2|].
  repeat split; try done; try (intros n; apply store_of_opened).
  by destruct (store_lookup name (key_of req) w).
Qed.

Lemma failed_response_is_not_cached_witness :
  let w := world_with "s" [(key_of logo_request, stored_at 1000 "logo")] in
  same_contents w (networkFirst (answering_404 2000) logo_request "s" 500 w).2 /\
  (networkFirst (answering_404 2000) logo_request "s" 500 w).1 = Returned not_found.
Proof.
  intros w.
  pose proof (failed_response_is_not_cached (answering_404 2000) logo_request "s" 500 w
                not_found eq_refl eq_refl) as (_ & H2 & _ & H4 & _).
  exact (conj H2 H4).
Defined.

(** C10 (as stated) fails for [staleWhileRevalidate] when the store has an
    entry for the key: the caller gets the cached entry, not the network
    response. *)
Lemma failed_response_not_returned_by_swr :
  ~ failed_response_returned (answering_404 2000) logo_request "s" 500
      (world_with "s" [(key_of logo_request, stored_at 1000 "logo")]).
Proof.
  intros H. destruct (H not_found eq_refl eq_refl) as (_ & _ & Hswr & _).
  vm_compute in Hswr. discriminate.
Qed.

(** ** Relations kept by every run of a computation *)

Section Keeps.
Context (R : world -> world -> Prop) `{!PreOrder R}.

Lemma keeps_ret {A} (a : A) : keeps R (ret a).
Proof. intros w. reflexivity. Qed.

Lemma keeps_throw {A} (e : error) : keeps R (@throw A e).
Proof. intros w. reflexivity. Qed.

Lemma keeps_bind {A B} (m : M A) (k : A -> M B) :
  keeps R m -> (forall a, keeps R (k a)) -> keeps R (bind m k).
Proof.
  intros Hm Hk w. unfold bind. specialize (Hm w).
  destruct (m w) as [[a|e] w1]; [|exact Hm].
  etransitivity; [exact Hm|apply Hk].
Qed.

Lemma keeps_try_catch {A} (m : M A) (h : error -> M A) :
  keeps R m -> (forall e, keeps R (h e)) -> keeps R (try_catch m h).
Proof.
  intros Hm Hh w. unfold try_catch. specialize (Hm w).
  destruct (m w) as [[a|e] w1]; [exact Hm|].
  etransitivity; [exact Hm|apply Hh].
Qed.

Lemma keeps_try_finally {A} (m : M A) (f : M unit) :
  keeps R m -> keeps R f -> keeps R (try_finally m f).
Proof.
  intros Hm Hf w. unfold try_finally. specialize (Hm w).
  destruct (m w) as [o w1]. specialize (Hf w1).
  destruct (f w1) as [[u|e] w2]; (etransitivity; [exact Hm|exact Hf]).
Qed.

Lemma keeps_forEach {A} (f : A -> M unit) (l : list A) :
  (forall a, keeps R (f a)) -> keeps R (forEach f l).
Proof.
  intros Hf. induction l as [|a l IH]; [apply keeps_ret|].
  cbn [forEach]. apply keeps_bind; [apply Hf|intros _; exact IH].
Qed.
End Keeps.

Ltac keeps_step :=
  match goal with
  | |- keeps _ (bind _ _) => apply keeps_bind; try exact _; [|intros ?]
  | |- keeps _ (try_catch _ _) => apply keeps_try_catch; try exact _; [|intros ?]
  | |- keeps _ (try_finally _ _) => apply keeps_try_finally; try exact _
  | |- keeps _ (forEach _ _) => apply keeps_forEach; try exact _; intros ?
  | |- keeps _ (ret _) => apply keeps_ret; exact _
  | |- keeps _ (throw _) => apply keeps_throw; exact _
  | |- keeps _ (if ?b then _ else _) => destruct b
  | |- keeps _ (match ?x with Some _ => _ | None => _ end) => destruct x
  | |- keeps _ (match ?x with inl _ => _ | inr _ => _ end) => destruct x
  end.

#[local] Instance same_contents_preorder : PreOrder same_contents.
Proof.
  split; [intros w; apply same_contents_refl|].
  intros w1 w2 w3. apply same_contents_trans.
Qed.

Lemma same_contents_fetch E u : keeps same_contents (fetch E u).
Proof. intros w. unfold fetch. destruct (net E u); apply same_contents_emit. Qed.

Lemma same_contents_open name : keeps same_contents (caches_open name).
Proof. intros w. apply same_contents_opened. Qed.

Lemma same_contents_match c k : keeps same_contents (cache_match c k).
Proof. intros w. apply same_contents_emit. Qed.

Lemma same_contents_fallback req : keeps same_contents (handleOfflineFallback req).
Proof.
  unfold handleOfflineFallback.
  repeat first [keeps_step | apply same_contents_open | apply same_contents_match].
Qed.

Lemma cleanupCache_within_bound name N w :
  Z.of_nat (length (store_of name w)) <= N ->
  same_contents w (cleanupCache name N w).2.
Proof.
  intros Hle. unfold cleanupCache. destruct (N =? 0); [apply same_contents_refl|].
  unfold try_catch, bind, caches_open, cache_keys.
  rewrite store_of_opened, length_store_keys.
  destruct (Z.gtb_spec (Z.of_nat (length (store_of name w))) N) as [Hgt|_]; [lia|].
  cbn. split; [intros n; apply store_of_opened|done].
Qed.

(** ** NETWORK_ONLY *)

Lemma cleanupCache_returns name N w : (cleanupCache name N w).1 = Returned tt.
Proof.
  destruct (decide (N = 0)) as [->|HN]; [done|].
  by destruct (cleanupCache_store name N w HN).
Qed.

Lemma try_finally_cleanup {A} (m : M A) name N w :
  try_finally m (cleanupCache name N) w =
  ((m w).1, (cleanupCache name N (m w).2).2).
Proof.
  unfold try_finally. destruct (m w) as [o w1]. cbn [fst snd].
  pose proof (cleanupCache_returns name N w1) as H.
  destruct (cleanupCache name N w1) as [[[]|e] w2]; [done|discriminate].
Qed.

Lemma handleRequest_network_only E req config w :
  strategy config = NETWORK_ONLY ->
  handleRequest E req config w =
  let w1 := emit (EvFetch (key_of req)) w in
  match net E (key_of req) with
  | inl r => (Returned (Resp r), (cleanupCache (cacheName config) (maxEntries config) w1).2)
  | inr e =>
      ((as_value (handleOfflineFallback req) w1).1,
       (cleanupCache (cacheName config) (maxEntries config)
          (as_value (handleOfflineFallback req) w1).2).2)
  end.
Proof.
  intros Hs. unfold handleRequest. rewrite try_finally_cleanup.
  unfold run_strategy. rewrite Hs.
  unfold try_catch, as_value at 1 3, bind, fetch.
  by destruct (net E (key_of req)).
Qed.

Lemma as_value_snd (m : M response) w : (as_value m w).2 = (m w).2.
Proof. unfold as_value, bind, ret. by destruct (m w) as [[r|e] w1]. Qed.

Lemma forEach_delete_trace c ks w :
  trace (forEach (cache_delete c) ks w).2 = trace w ++ List.map (EvDelete c) ks.
Proof.
  revert w. induction ks as [|k ks IH]; intros w; [cbn; by rewrite app_nil_r|].
  rewrite (forEach_cons_returned (cache_delete c) k ks w (deleted_from c k w) eq_refl).
  rewrite IH. cbn. by rewrite <- app_assoc.
Qed.

Lemma cleanupCache_trace name N w :
  N <> 0 ->
  exists ks, trace (cleanupCache name N w).2 =
             trace w ++ EvOpen name :: EvKeys name :: List.map (EvDelete name) ks.
Proof.
  intros HN. unfold cleanupCache. rewrite (proj2 (Z.eqb_neq N 0) HN).
  unfold try_catch, bind, caches_open, cache_keys.
  set (w1 := emit (EvKeys name) (opened name w)).
  assert (H1 : trace w1 = trace w ++ [EvOpen name; EvKeys name])
    by (unfold w1; cbn; by rewrite <- app_assoc).
  destruct (_ >? N).
  - eexists.
    pose proof (forEach_delete_trace name
                  (take (Z.to_nat (Z.of_nat (length (store_keys (store_of name (opened name w)))) - N))
                     (store_keys (store_of name (opened name w)))) w1) as H2.
    pose proof (forEach_delete_store name
                  (take (Z.to_nat (Z.of_nat (length (store_keys (store_of name (opened name w)))) - N))
                     (store_keys (store_of name (opened name w)))) w1) as [H3 _].
    destruct (forEach _ _ w1) as [o w2]. cbn [fst snd] in *. subst o. cbn [snd].
    rewrite H2, H1, <- app_assoc. reflexivity.
  - exists []. cbn [snd ret List.map]. exact H1.
Qed.

Lemma fallback_trace req w :
  exists pre, trace (handleOfflineFallback req w).2 = trace w ++ pre.
Proof.
  unfold handleOfflineFallback.
  destruct (String.eqb (destination req) "document").
  - unfold bind, caches_open, cache_match.
    destruct (store_lookup STATIC_CACHE "/" (opened STATIC_CACHE w)).
    + exists [EvOpen STATIC_CACHE; EvMatch STATIC_CACHE "/"]. cbn. by rewrite <- app_assoc.
    + exists [EvOpen STATIC_CACHE; EvMatch STATIC_CACHE "/"; EvMatch STATIC_CACHE "/index.html"].
      destruct (store_lookup STATIC_CACHE "/index.html" _); cbn; by rewrite <- !app_assoc.
  - destruct (String.eqb (destination req) "image"); exists []; cbn; by rewrite app_nil_r.
Qed.

(** C8 (as amended): under NETWORK_ONLY the strategy step is the bare
    fetch and touches no store; when the fetch succeeds its response is
    returned as it is, and when it fails the failure is handed to
    [handleOfflineFallback], whose outcome is returned.  The eviction step
    then runs on the store of the policy as for every request: with
    [maxEntries] zero (or unset) and a successful fetch, the fetch is the
    only platform call and the CacheStorage is untouched; otherwise the
    store of the policy is opened and listed (right after the fetch when
    it succeeded, after the calls of the fallback when it failed), and
    nothing but deletions from that store follows; and whenever the store
    of the policy holds at most [maxEntries] entries, every store holds
    afterwards what it held before. *)
Theorem network_only_handling E req config w
    (Hs : strategy config = NETWORK_ONLY) :
  let k := key_of req in
  let name := cacheName config in
  let res := handleRequest E req config w in
  run_strategy E req config w = as_value (fetch E k) w /\
  (run_strategy E req config w).2 = emit (EvFetch k) w /\
  (forall r, net E k = inl r -> res.1 = Returned (Resp r)) /\
  (forall e, net E k = inr e ->
     res.1 = (as_value (handleOfflineFallback req) (emit (EvFetch k) w)).1) /\
  (forall r, net E k = inl r -> maxEntries config = 0 ->
     res.2 = emit (EvFetch k) w /\ caches res.2 = caches w /\
     new_events w res.2 = [EvFetch k]) /\
  (maxEntries config <> 0 ->
     In (EvOpen name) (new_events w res.2) /\
     In (EvKeys name) (new_events w res.2) /\
     exists pre ks,
       new_events w res.2 =
         EvFetch k :: pre ++ EvOpen name :: EvKeys name :: List.map (EvDelete name) ks /\
       (forall r, net E k = inl r -> pre = []) /\
       (forall e, net E k = inr e ->
          trace (handleOfflineFallback req (emit (EvFetch k) w)).2 =
          trace (emit (EvFetch k) w) ++ pre)) /\
  (Z.of_nat (length (store_of name w)) <= maxEntries config ->
     forall n, store_of n res.2 = store_of n w).
Proof.
  intros k name res. subst res. rewrite (handleRequest_network_only _ _ _ _ Hs). cbv zeta.
  fold k. fold name. unfold run_strategy. rewrite Hs.
  split; [done|]. split.
  { unfold as_value, bind, fetch. fold k. by destruct (net E k). }
  split; [by intros r ->|]. split; [by intros e ->|]. split; [|split].
  - intros r -> ->. cbn. split; [done|]. split; [done|].
    by apply new_events_app.
  - intros HN.
    assert (Hev : exists pre ks,
              new_events w
                (match net E k with
                 | inl r =>
                     (Returned (Resp r),
                      (cleanupCache name (maxEntries config) (emit (EvFetch k) w)).2)
                 | inr _ =>
                     ((as_value (handleOfflineFallback req) (emit (EvFetch k) w)).1,
                      (cleanupCache name (maxEntries config)
                         (as_value (handleOfflineFallback req) (emit (EvFetch k) w)).2).2)
                 end).2 =
                EvFetch k :: pre ++ EvOpen name :: EvKeys name :: List.map (EvDelete name) ks /\
              (forall r, net E k = inl r -> pre = []) /\
              (forall e, net E k = inr e ->
                 trace (handleOfflineFallback req (emit (EvFetch k) w)).2 =
                 trace (emit (EvFetch k) w) ++ pre)).
    { destruct (net E k) as [r|e]; cbn [snd].
      - destruct (cleanupCache_trace name (maxEntries config) (emit (EvFetch k) w) HN)
          as [ks Hks].
        exists [], ks. split; [|split; [done|by intros e']].
        apply new_events_app. rewrite Hks. cbn. by rewrite <- app_assoc.
      - rewrite as_value_snd.
        destruct (fallback_trace req (emit (EvFetch k) w)) as [pre Hpre].
        destruct (cleanupCache_trace name (maxEntries config)
                    (handleOfflineFallback req (emit (EvFetch k) w)).2 HN) as [ks Hks].
        exists pre, ks. split; [|split; [by intros r'|by intros e']].
        apply new_events_app. rewrite Hks, Hpre. cbn. by rewrite <- !app_assoc. }
    destruct Hev as (pre & ks & Hev & Hpre).
    split; [|split; [|by exists pre, ks]]; rewrite Hev.
    + right. apply in_or_app. right. by left.
    + right. apply in_or_app. right. right. by left.
  - intros Hle n.
    assert (Hkeep : forall w2, same_contents w w2 ->
              store_of n (cleanupCache name (maxEntries config) w2).2
              = store_of n w).
    { intros w2 [Hst Hbg].
      destruct (cleanupCache_within_bound name (maxEntries config) w2) as [H _].
      - by rewrite Hst.
      - by rewrite H, Hst. }
    destruct (net E k) as [r|e]; cbn [snd]; apply Hkeep.
    + apply same_contents_emit.
    + rewrite as_value_snd.
      apply (same_contents_trans _ (emit (EvFetch k) w)); [apply same_contents_emit|].
      apply same_contents_fallback.
Qed.

Lemma network_only_handling_witness :
  let w := world_with "s" [("a", served "a")] in
  let res := handleRequest (online 7) script_request network_only_route w in
  res.1 = Returned (Resp (served (key_of script_request))) /\
  In (EvOpen "s") (new_events w res.2) /\
  In (EvKeys "s") (new_events w res.2).
Proof.
  pose proof (network_only_handling (online 7) script_request network_only_route
                (world_with "s" [("a", served "a")]) eq_refl)
    as (_ & _ & H & _ & _ & Hopen & _).
  split; [by apply H|].
  destruct Hopen as (H1 & H2 & _); [discriminate|]. by split.
Defined.

(** C8 (as stated) fails twice.  With the fetch answered, the eviction step
    that follows every request opens the store of the policy, lists it
    and, here, deletes its oldest entry.  With the fetch failing (and no
    eviction, [maxEntries] being zero), the caller does not get the failure
    of the fetch: for an image it gets the placeholder of the offline
    fallback. *)
Lemma network_only_is_more_than_the_fetch :
  ~ only_the_fetch (online 7) script_request network_only_route
      (world_with "s" [("a", served "a"); ("b", served "b")]) /\
  ~ only_the_fetch (offline 7) gallery_request (Route None NETWORK_ONLY "s" 1000 0)
      (world_with "s" [("a", served "a"); ("b", served "b")]).
Proof.
  split.
  - intros H. destruct (H eq_refl) as (_ & Hstores & _). specialize (Hstores "s").
    vm_compute in Hstores. discriminate.
  - intros H. destruct (H eq_refl) as (Hout & _).
    vm_compute in Hout. discriminate.
Qed.

Example network_only_evicts_run :
  let res := handleRequest (online 7) script_request network_only_route
               (world_with "s" [("a", served "a"); ("b", served "b")]) in
  store_of "s" res.2 = [("b", served "b")] /\
  new_events (world_with "s" [("a", served "a"); ("b", served "b")]) res.2 =
    [EvFetch (key_of script_request); EvOpen "s"; EvKeys "s"; EvDelete "s" "a"].
Proof. vm_compute. auto. Qed.

Example network_only_falls_back_run :
  let w := world_with "s" [("a", served "a"); ("b", served "b")] in
  let res := handleRequest (offline 7) gallery_request
               (Route None NETWORK_ONLY "s" 1000 0) w in
  (as_value (fetch (offline 7) (key_of gallery_request)) w).1
    = Thrown (FetchError (key_of gallery_request)) /\
  res.1 = Returned (Resp offline_image) /\
  store_of "s" res.2 = store_of "s" w /\
  new_events w res.2 = [EvFetch (key_of gallery_request)].
Proof. vm_compute. auto. Qed.

(** ** Looking up after a write or a delete *)

Lemma store_match_cons k a r c :
  store_match k ((a, r) :: c) = if String.eqb a k then Some r else store_match k c.
Proof. unfold store_match. cbn. by destruct (String.eqb a k). Qed.

Lemma store_match_app k c1 c2 :
  store_match k (c1 ++ c2) =
  match store_match k c1 with
  | Some r => Some r
  | None => store_match k c2
  end.
Proof.
  induction c1 as [|[a r] c1 IH]; [done|].
  rewrite <- app_comm_cons, !store_match_cons.
  by destruct (String.eqb a k).
Qed.

Lemma store_match_delete_same k c : store_match k (store_delete k c) = None.
Proof.
  induction c as [|[a r] c IH]; [done|]. rewrite store_delete_cons.
  destruct (String.eqb_spec a k) as [->|Hne]; [done|].
  rewrite store_match_cons. by destruct (String.eqb_spec a k).
Qed.

Lemma store_match_delete_other k k' c :
  k <> k' -> store_match k' (store_delete k c) = store_match k' c.
Proof.
  intros Hne. induction c as [|[a r] c IH]; [done|].
  rewrite store_delete_cons, store_match_cons.
  destruct (String.eqb_spec a k) as [->|Ha].
  - by destruct (String.eqb_spec k k').
  - rewrite store_match_cons. by rewrite IH.
Qed.

Lemma store_match_put k' k r c :
  store_match k' (store_put k r c) =
  if String.eqb k k' then Some r else store_match k' c.
Proof.
  unfold store_put. rewrite store_match_app, store_match_cons.
  destruct (String.eqb_spec k k') as [->|Hne].
  - by rewrite store_match_delete_same.
  - rewrite store_match_delete_other by done.
    by destruct (store_match k' c).
Qed.

Lemma store_lookup_put_into name k' c k r w :
  store_lookup name k' (put_into c k r w) =
  if decide (c = name) then
    (if String.eqb k k' then Some r else store_lookup name k' w)
  else store_lookup name k' w.
Proof.
  unfold store_lookup. rewrite store_of_put_into.
  destruct (decide (c = name)) as [->|]; [apply store_match_put|done].
Qed.

Lemma store_lookup_deleted_from name k' c k r w :
  store_lookup name k' (deleted_from c k w) = Some r ->
  store_lookup name k' w = Some r.
Proof.
  unfold store_lookup. rewrite store_of_deleted_from.
  destruct (decide (c = name)) as [->|]; [|done].
  destruct (decide (k = k')) as [->|Hne].
  - by rewrite store_match_delete_same.
  - by rewrite store_match_delete_other.
Qed.

(** ** The stamping path *)

#[local] Instance stamps_new_preorder E : PreOrder (stamps_new E).
Proof.
  split.
  - intros w. split; intros; by left.
  - intros w1 w2 w3 [H1 H2] [H3 H4]. split.
    + intros name k r H. destruct (H3 _ _ _ H) as [H'|H']; [by apply H1|by right].
    + intros c k r H. destruct (H4 _ _ _ H) as [H'|H']; [by apply H2|by right].
Qed.

Lemma same_contents_stamps_new E w w' : same_contents w w' -> stamps_new E w w'.
Proof.
  intros [Hs Hb]. split.
  - intros name k r. unfold store_lookup. rewrite Hs. by left.
  - intros c k r. rewrite Hb. by left.
Qed.

Lemma stamps_new_fetch E E' u : keeps (stamps_new E) (fetch E' u).
Proof. intros w. apply same_contents_stamps_new, same_contents_fetch. Qed.

Lemma stamps_new_open E name : keeps (stamps_new E) (caches_open name).
Proof. intros w. apply same_contents_stamps_new, same_contents_open. Qed.

Lemma stamps_new_match E c k : keeps (stamps_new E) (cache_match c k).
Proof. intros w. apply same_contents_stamps_new, same_contents_match. Qed.

Lemma stamps_new_keys E c : keeps (stamps_new E) (cache_keys c).
Proof. intros w. apply same_contents_stamps_new, same_contents_emit. Qed.

Lemma stamps_new_delete E c k : keeps (stamps_new E) (cache_delete c k).
Proof.
  intros w. split.
  - intros name k' r H. left. by apply store_lookup_deleted_from in H.
  - intros c' k' r H. by left.
Qed.

Lemma stamps_new_cacheResponse E c req r : keeps (stamps_new E) (cacheResponse E c req r).
Proof.
  intros w. rewrite cacheResponse_eq.
  destruct (status r =? 206); [apply same_contents_stamps_new, same_contents_emit|].
  split.
  - intros name k' r'. cbn [snd].
    rewrite store_lookup_put_into.
    destruct (decide (c = name)); [|by left].
    destruct (String.eqb (key_of req) k'); [|by left].
    intros [= <-]. by right.
  - intros c' k' r' H. by left.
Qed.

Lemma stamps_new_detached E c req r :
  keeps (stamps_new E) (cacheResponse_detached E c req r).
Proof.
  intros w. split; [intros name k' r' H; by left|].
  intros c' k' r'. unfold cacheResponse_detached, queued. cbn [snd background].
  rewrite elem_of_app, list_elem_of_singleton. intros [H|[= -> -> ->]]; [by left|by right].
Qed.

Ltac stamps_new_auto :=
  repeat first
    [ keeps_step
    | apply stamps_new_fetch | apply stamps_new_open | apply stamps_new_match
    | apply stamps_new_keys | apply stamps_new_delete
    | apply stamps_new_cacheResponse | apply stamps_new_detached ].

Lemma stamps_new_cleanupCache E name N : keeps (stamps_new E) (cleanupCache name N).
Proof. unfold cleanupCache. stamps_new_auto. Qed.

Lemma stamps_new_fallback E req : keeps (stamps_new E) (handleOfflineFallback req).
Proof. intros w. apply same_contents_stamps_new, same_contents_fallback. Qed.

Lemma stamps_new_run_strategy E req config : keeps (stamps_new E) (run_strategy E req config).
Proof.
  unfold run_strategy.
  destruct (strategy config);
    unfold as_value, cacheFirst, cacheFirst_network, networkFirst,
      staleWhileRevalidate, networkPromise, cacheOnly;
    stamps_new_auto.
Qed.

Lemma stamps_new_handleRequest E req config :
  keeps (stamps_new E) (handleRequest E req config).
Proof.
  unfold handleRequest. keeps_step; [keeps_step|].
  - apply stamps_new_run_strategy.
  - unfold as_value. keeps_step; [apply stamps_new_fallback|keeps_step].
  - apply stamps_new_cleanupCache.
Qed.

Lemma stamps_new_all_stamped E w w' :
  stamps_new E w w' -> all_stamped w -> all_stamped w'.
Proof.
  intros [H1 H2] [H3 H4]. split.
  - intros name k r H. destruct (H1 _ _ _ H) as [H'|H']; [by eapply H3|by rewrite H'].
  - intros c k r H. destruct (H2 _ _ _ H) as [H'|H']; [by eapply H4|by rewrite H'].
Qed.

(** The pending writes, once they complete. *)
Lemma settle_all_stamped w : all_stamped w -> all_stamped (settle w).2.
Proof.
  intros [Hst Hbg]. unfold settle.
  assert (Hgen : forall l w0,
            (forall c k r, (c, k, r) ∈ l -> is_Some (swCacheTime r)) ->
            all_stamped w0 ->
            all_stamped
              (forEach (fun p : string * string * response =>
                          try_catch (cache_put p.1.1 p.1.2 p.2) (fun _ => ret tt)) l w0).2).
  { induction l as [|[[c k] r] l IH]; intros w0 Hl Hw0; [exact Hw0|].
    rewrite (forEach_cons_returned
               (fun p : string * string * response =>
                  try_catch (cache_put p.1.1 p.1.2 p.2) (fun _ => ret tt))
               (c, k, r) l w0 _ (lenient_put_eq c k r w0)). apply IH.
    - intros c' k' r' H. apply (Hl c' k' r'). by apply elem_of_cons; right.
    - destruct (storable r); [|exact Hw0].
      destruct Hw0 as [H1 H2]. split; [|exact H2].
      intros name k' r'. rewrite store_lookup_put_into.
      destruct (decide (c = name)); [|apply H1].
      destruct (String.eqb k k'); [|apply H1].
      intros [= <-]. apply (Hl c k r). by apply elem_of_cons; left. }
  apply Hgen; [exact Hbg|]. split; [exact Hst|].
  intros c k r H. cbn in H. inversion H.
Qed.

(** The writes of install and prefetch store the response as fetched. *)

Lemma install_model_stores_as_fetched E c u r w :
  net E u = inl r -> ok r = true -> storable r = true ->
  store_lookup c u (install_model E c u w).2 = Some r.
Proof.
  intros Hn Hok Hst. unfold install_model, try_catch, bind, fetch.
  rewrite Hn, Hok, cache_put_storable by done. cbn [fst snd].
  by rewrite store_lookup_put_into, decide_True, String.eqb_refl.
Qed.

Lemma prefetchModels_stores_as_fetched E u r w :
  net E u = inl r -> ok r = true -> storable r = true ->
  store_lookup MODEL_CACHE u (prefetchModels E [u] w).2 = Some r.
Proof.
  intros Hn Hok Hst.
  unfold prefetchModels, try_catch, bind, caches_open, forEach, bind, try_catch,
    bind, fetch.
  rewrite Hn, Hok, cache_put_storable by done. cbn [fst snd ret].
  by rewrite store_lookup_put_into, decide_True, String.eqb_refl.
Qed.

Lemma cache_addAll_stores_as_fetched E c u r w :
  net E u = inl r -> ok r = true -> storable r = true ->
  store_lookup c u (cache_addAll E c [u] w).2 = Some r.
Proof.
  intros Hn Hok Hst.
  unfold cache_addAll, fetch_each, bind, fetch_settled, ret.
  rewrite Hn. cbn [first_failure fulfilled]. rewrite Hok, Hst. cbn [andb].
  unfold forEach, bind, ret. rewrite cache_put_storable by done. cbn [fst snd].
  by rewrite store_lookup_put_into, decide_True, String.eqb_refl.
Qed.

Lemma all_stamped_empty_world : all_stamped empty_world.
Proof.
  split.
  - intros name k r. unfold store_lookup, store_of, empty_world. cbn [caches].
    by rewrite lookup_empty.
  - intros c k r H. inversion H.
Qed.

(** C6 (as amended): the request-time strategies write through one
    stamping path.  [cacheResponse] stores the response with
    [sw-cache-time] set to the time of the write, whatever the response
    carried (a response of status 206, which the Cache rejects, is not
    stored); after a request has been handled, every entry of every store
    and every pending write was either there before or carries the current
    time; so if every entry is stamped, handling a request and completing
    the pending writes keep it so.  The other write paths do not stamp:
    the install manifest ([addAll]), install-time model pre-caching and the
    prefetch-models command store the response as fetched (when the Cache
    accepts it), and the age of an entry without the stamp is computed
    from [insertedAt = 0]. *)
Theorem request_time_writes_are_stamped E req config w :
  (forall c r,
     store_lookup c (key_of req) (cacheResponse E c req r w).2 =
       (if status r =? 206 then store_lookup c (key_of req) w
        else Some (stamped E r)) /\
     swCacheTime (stamped E r) = Some (now E)) /\
  stamps_new E w (handleRequest E req config w).2 /\
  (all_stamped w ->
     all_stamped (handleRequest E req config w).2 /\
     all_stamped (settle (handleRequest E req config w).2).2) /\
  (forall u r, net E u = inl r -> ok r = true -> storable r = true ->
     store_lookup STATIC_CACHE u (cache_addAll E STATIC_CACHE [u] w).2 = Some r /\
     store_lookup MODEL_CACHE u (install_model E MODEL_CACHE u w).2 = Some r /\
     store_lookup MODEL_CACHE u (prefetchModels E [u] w).2 = Some r) /\
  (forall r, swCacheTime r = None -> cacheTime r = 0).
Proof.
  split.
  { intros c r. split; [|done]. rewrite cacheResponse_eq.
    destruct (status r =? 206); cbn [snd]; [done|].
    by rewrite store_lookup_put_into, decide_True, String.eqb_refl. }
  split; [apply stamps_new_handleRequest|]. split.
  { intros Hw.
    assert (all_stamped (handleRequest E req config w).2) as Hw'
      by (apply (stamps_new_all_stamped E w); [apply stamps_new_handleRequest|exact Hw]).
    split; [exact Hw'|by apply settle_all_stamped]. }
  split.
  { intros u r Hn Hok Hst. split; [by apply cache_addAll_stores_as_fetched|].
    split; [by apply install_model_stores_as_fetched|by apply prefetchModels_stores_as_fetched]. }
  intros r Hr. unfold cacheTime. by rewrite Hr.
Qed.

(** C6 (as stated) fails: install writes the manifest and the models, and
    prefetch writes the models, without the stamp. *)
Lemma install_writes_unstamped_entries :
  ~ install_keeps_stamps (online 0) MODEL_URLS empty_world.
Proof.
  intros H. destruct (H all_stamped_empty_world) as [[Hinst _] _].
  assert (Hl : store_lookup STATIC_CACHE "/index.html" (onInstall (online 0) empty_world).2
               = Some (served "/index.html")) by (vm_compute; reflexivity).
  destruct (Hinst _ _ _ Hl) as [t Ht]. discriminate.
Qed.

Example unstamped_entries_run :
  swCacheTime <$> store_lookup STATIC_CACHE "/" (onInstall (online 0) empty_world).2
    = Some None /\
  swCacheTime <$> store_lookup MODEL_CACHE
                    "https://cdn.jsdelivr.net/npm/@tensorflow-models/blazeface@0.0.7/dist/blazeface.min.js"
                    (onInstall (online 0) empty_world).2 = Some None /\
  swCacheTime <$> store_lookup MODEL_CACHE "/m1.json"
                    (prefetchModels (online 0) ["/m1.json"] empty_world).2 = Some None /\
  swCacheTime <$> store_lookup STATIC_CACHE (key_of script_request)
                    (handleRequest (online 9) script_request route_static empty_world).2
    = Some (Some 9).
Proof. vm_compute. auto. Qed.

(** * Further properties of the worker *)

(** ** What is fetched *)

#[local] Instance fetches_within_preorder P : PreOrder (fetches_within P).
Proof.
  split.
  - intros w. exists []. split; [by rewrite app_nil_r|intros u []].
  - intros w1 w2 w3 (l1 & H1 & F1) (l2 & H2 & F2). exists (l1 ++ l2). split.
    + by rewrite H2, H1, app_assoc.
    + intros u Hu. apply in_app_or in Hu as [Hu|Hu]; auto.
Qed.

Lemma fetches_within_event P e w :
  (forall u, e = EvFetch u -> P u) -> fetches_within P w (emit e w).
Proof.
  intros He. exists [e]. split; [done|].
  intros u [Hu|[]]. by apply He.
Qed.

Lemma fetches_within_events P e1 e2 w w1 :
  trace w1 = trace w ++ [e1] ->
  (forall u, e1 = EvFetch u -> P u) -> (forall u, e2 = EvFetch u -> P u) ->
  fetches_within P w (emit e2 w1).
Proof.
  intros Hw He1 He2. exists [e1; e2]. split.
  - cbn. rewrite Hw. by rewrite <- app_assoc.
  - intros u [Hu|[Hu|[]]]; auto.
Qed.

Lemma fetches_within_fetch (P : string -> Prop) E u : P u -> keeps (fetches_within P) (fetch E u).
Proof.
  intros Hu w. unfold fetch.
  destruct (net E u); apply fetches_within_event; by intros ? [= <-].
Qed.

Lemma fetches_within_open P name : keeps (fetches_within P) (caches_open name).
Proof. intros w. exists [EvOpen name]. split; [done|]. by intros u [Hu|[]]. Qed.

Lemma fetches_within_match P c k : keeps (fetches_within P) (cache_match c k).
Proof. intros w. by apply fetches_within_event. Qed.

Lemma fetches_within_keys P c : keeps (fetches_within P) (cache_keys c).
Proof. intros w. by apply fetches_within_event. Qed.

Lemma fetches_within_put P c k r : keeps (fetches_within P) (cache_put c k r).
Proof.
  intros w. exists [EvPut c k]. unfold cache_put.
  split; [by destruct (storable r)|]. by intros u [Hu|[]].
Qed.

Lemma fetches_within_delete P c k : keeps (fetches_within P) (cache_delete c k).
Proof. intros w. exists [EvDelete c k]. split; [done|]. by intros u [Hu|[]]. Qed.

Lemma fetches_within_detached P E c req r :
  keeps (fetches_within P) (cacheResponse_detached E c req r).
Proof. intros w. exists []. split; [by rewrite app_nil_r|intros u []]. Qed.

Ltac fetches_within_auto :=
  repeat first
    [ keeps_step
    | apply fetches_within_open | apply fetches_within_match
    | apply fetches_within_keys | apply fetches_within_delete
    | apply fetches_within_put | apply fetches_within_detached
    | apply fetches_within_fetch; done ].

Lemma fetches_within_cleanupCache P name N : keeps (fetches_within P) (cleanupCache name N).
Proof. unfold cleanupCache. fetches_within_auto. Qed.

Lemma fetches_within_fallback P req : keeps (fetches_within P) (handleOfflineFallback req).
Proof. unfold handleOfflineFallback. fetches_within_auto. Qed.

Lemma fetches_within_cacheOnly P req name : keeps (fetches_within P) (cacheOnly req name).
Proof. unfold cacheOnly. fetches_within_auto. Qed.

Lemma fetches_within_run_strategy E req config :
  keeps (fetches_within (eq (key_of req))) (run_strategy E req config).
Proof.
  unfold run_strategy.
  destruct (strategy config);
    unfold as_value, cacheFirst, cacheFirst_network, networkFirst,
      staleWhileRevalidate, networkPromise, cacheOnly, cacheResponse;
    fetches_within_auto.
Qed.

Lemma fetches_within_new_events P w w' u :
  fetches_within P w w' -> In (EvFetch u) (new_events w w') -> P u.
Proof. intros (l & Hl & F). rewrite (new_events_app _ _ _ Hl). apply F. Qed.

(** X1: whatever the strategy and the outcome, handling a request fetches
    nothing but the URL of the request: the offline fallback and the
    eviction step never use the network. *)
Theorem handleRequest_fetches_only_the_request E req config w u :
  In (EvFetch u) (new_events w (handleRequest E req config w).2) -> u = key_of req.
Proof.
  intros Hu. symmetry. revert Hu. apply fetches_within_new_events.
  revert w. change (keeps (fetches_within (eq (key_of req))) (handleRequest E req config)).
  unfold handleRequest. keeps_step; [keeps_step|].
  - apply fetches_within_run_strategy.
  - unfold as_value. keeps_step; [apply fetches_within_fallback|keeps_step].
  - apply fetches_within_cleanupCache.
Qed.

Lemma handleRequest_fetches_only_the_request_witness :
  In (EvFetch (key_of logo_request))
    (new_events empty_world (handleRequest (online 3) logo_request route_static empty_world).2) /\
  key_of logo_request = key_of logo_request.
Proof.
  assert (H : In (EvFetch (key_of logo_request))
                (new_events empty_world
                   (handleRequest (online 3) logo_request route_static empty_world).2))
    by (vm_compute; tauto).
  split; [exact H|].
  exact (handleRequest_fetches_only_the_request (online 3) logo_request route_static
           empty_world (key_of logo_request) H).
Defined.

(** ** Outcomes of [handleRequest] *)

Lemma handleOfflineFallback_result req w :
  (handleOfflineFallback req w).1 =
  if String.eqb (destination req) "document" then
    Returned (match store_lookup STATIC_CACHE "/" w with
              | Some r => r
              | None =>
                  match store_lookup STATIC_CACHE "/index.html" w with
                  | Some r => r
                  | None => offline_page
                  end
              end)
  else if String.eqb (destination req) "image" then Returned offline_image
  else Thrown (JsError "Offline and no cached response available").
Proof.
  unfold handleOfflineFallback.
  destruct (String.eqb (destination req) "document").
  - unfold bind, caches_open, cache_match, ret.
    rewrite store_lookup_opened.
    destruct (store_lookup STATIC_CACHE "/" w); [done|].
    rewrite store_lookup_emit, store_lookup_opened.
    by destruct (store_lookup STATIC_CACHE "/index.html" w).
  - by destruct (String.eqb (destination req) "image").
Qed.

Lemma handleRequest_outcome E req config w :
  (handleRequest E req config w).1 =
  match run_strategy E req config w with
  | (Returned v, _) => Returned v
  | (Thrown _, w1) => (as_value (handleOfflineFallback req) w1).1
  end.
Proof.
  unfold handleRequest. rewrite try_finally_cleanup. cbn [fst].
  unfold try_catch. by destruct (run_strategy E req config w) as [[v|e] w1].
Qed.

Lemma as_value_eq (m : M response) w :
  as_value m w =
  (match (m w).1 with Returned r => Returned (Resp r) | Thrown e => Thrown e end,
   (m w).2).
Proof. unfold as_value, bind, ret. by destruct (m w) as [[r|e] w1]. Qed.

Lemma as_value_fst (m : M response) w :
  (as_value m w).1 =
  match (m w).1 with Returned r => Returned (Resp r) | Thrown e => Thrown e end.
Proof. unfold as_value, bind, ret. by destruct (m w) as [[r|e] w1]. Qed.

(** X2: a promise given to [respondWith] is rejected only with the error
    of the offline fallback, "Offline and no cached response available",
    and only for a request whose destination is neither [document] nor
    [image]; the error thrown by the network or by [cacheOnly] never
    reaches the caller. *)
Theorem handleRequest_rejects_only_with_fallback_error E req config w e
    (Hthrown : (handleRequest E req config w).1 = Thrown e) :
  e = JsError "Offline and no cached response available" /\
  destination req <> "document" /\ destination req <> "image".
Proof.
  rewrite handleRequest_outcome in Hthrown.
  destruct (run_strategy E req config w) as [[v|e0] w1]; [discriminate|].
  rewrite as_value_fst, handleOfflineFallback_result in Hthrown.
  destruct (String.eqb_spec (destination req) "document"); [discriminate|].
  destruct (String.eqb_spec (destination req) "image"); [discriminate|].
  by injection Hthrown as <-.
Qed.

Lemma handleRequest_rejects_only_with_fallback_error_witness :
  (handleRequest (offline 5) script_request route_api empty_world).1
    = Thrown (JsError "Offline and no cached response available") /\
  destination script_request <> "document".
Proof.
  assert (H : (handleRequest (offline 5) script_request route_api empty_world).1
              = Thrown (JsError "Offline and no cached response available"))
    by (vm_compute; reflexivity).
  split; [exact H|].
  exact (proj1 (proj2 (handleRequest_rejects_only_with_fallback_error
                         (offline 5) script_request route_api empty_world _ H))).
Defined.

Lemma cacheOnly_eq req name w :
  cacheOnly req name w =
  (match store_lookup name (key_of req) w with
   | Some r => Returned r
   | None => Thrown (JsError "No cached response available")
   end, emit (EvMatch name (key_of req)) (opened name w)).
Proof.
  unfold cacheOnly, bind, caches_open, cache_match. rewrite store_lookup_opened.
  by destruct (store_lookup name (key_of req) w).
Qed.

(** X3: under CACHE_ONLY the network is never used, neither by the
    strategy nor by the fallback and the eviction that follow.  An entry
    for the key is returned whatever its age; without one the caller gets
    what the offline fallback gives for the destination of the request
    (the cached page or the inline offline page, the placeholder image, or
    its error), not the error "No cached response available". *)
Theorem cache_only_never_uses_the_network E req config w
    (Hs : strategy config = CACHE_ONLY) :
  let res := handleRequest E req config w in
  let cached := store_lookup (cacheName config) (key_of req) w in
  (forall u, ~ In (EvFetch u) (new_events w res.2)) /\
  (forall r, cached = Some r -> res.1 = Returned (Resp r)) /\
  (cached = None ->
     res.1 =
     if String.eqb (destination req) "document" then
       Returned (Resp (match store_lookup STATIC_CACHE "/" w with
                       | Some r => r
                       | None =>
                           match store_lookup STATIC_CACHE "/index.html" w with
                           | Some r => r
                           | None => offline_page
                           end
                       end))
     else if String.eqb (destination req) "image" then Returned (Resp offline_image)
     else Thrown (JsError "Offline and no cached response available")).
Proof.
  intros res cached. subst res cached. split.
  - intros u Hu. revert Hu. apply (fetches_within_new_events (fun _ => False)).
    revert w. change (keeps (fetches_within (fun _ => False)) (handleRequest E req config)).
    unfold handleRequest, run_strategy. rewrite Hs.
    keeps_step; [keeps_step|].
    + unfold as_value. keeps_step; [apply fetches_within_cacheOnly|keeps_step].
    + unfold as_value. keeps_step; [apply fetches_within_fallback|keeps_step].
    + apply fetches_within_cleanupCache.
  - rewrite handleRequest_outcome. unfold run_strategy. rewrite Hs.
    rewrite (as_value_eq (cacheOnly req (cacheName config))), cacheOnly_eq. cbn [fst snd].
    destruct (store_lookup (cacheName config) (key_of req) w) as [r|].
    + split; [by intros r' [= <-]|discriminate].
    + split; [discriminate|intros _].
      rewrite as_value_fst, handleOfflineFallback_result.
      rewrite !store_lookup_emit, !store_lookup_opened.
      destruct (String.eqb (destination req) "document"); [done|].
      by destruct (String.eqb (destination req) "image").
Qed.

Lemma cache_only_never_uses_the_network_witness :
  (handleRequest (online 1) logo_request (Route None CACHE_ONLY "s" 10 5) empty_world).1
  = Returned (Resp offline_image).
Proof.
  exact (proj2 (proj2 (cache_only_never_uses_the_network (online 1) logo_request
                         (Route None CACHE_ONLY "s" 10 5) empty_world eq_refl)) eq_refl).
Defined.

(** ** One entry per key *)

#[local] Instance keeps_unique_preorder : PreOrder keeps_unique.
Proof. split; [by intros w H|]. intros w1 w2 w3 H1 H2 H. by apply H2, H1. Qed.

Lemma same_contents_keeps_unique w w' : same_contents w w' -> keeps_unique w w'.
Proof. intros [Hs _] H name. rewrite Hs. apply H. Qed.

Lemma keeps_unique_of_same_contents {A} (m : M A) :
  keeps same_contents m -> keeps keeps_unique m.
Proof. intros H w. apply same_contents_keeps_unique, H. Qed.

Lemma keeps_unique_put c k r : keeps keeps_unique (cache_put c k r).
Proof.
  intros w H name. unfold cache_put. destruct (storable r); cbn [snd]; [|apply H].
  rewrite store_of_put_into.
  destruct (decide (c = name)); [by apply NoDup_keys_put|apply H].
Qed.

Lemma keeps_unique_delete c k : keeps keeps_unique (cache_delete c k).
Proof.
  intros w H name. unfold cache_delete. cbn [snd]. rewrite store_of_deleted_from.
  destruct (decide (c = name)); [by apply NoDup_keys_delete|apply H].
Qed.

Lemma keeps_unique_detached E c req r : keeps keeps_unique (cacheResponse_detached E c req r).
Proof. intros w H name. apply H. Qed.

Lemma store_of_caches_delete name n w :
  store_of name (caches_delete n w).2 =
  if decide (n = name) then [] else store_of name w.
Proof.
  unfold caches_delete, store_of. cbn [snd caches set_caches].
  destruct (decide (n = name)) as [->|Hne].
  - by rewrite lookup_delete_eq.
  - by rewrite lookup_delete_ne.
Qed.

Lemma keeps_unique_caches_delete n : keeps keeps_unique (caches_delete n).
Proof.
  intros w H name. rewrite store_of_caches_delete.
  destruct (decide (n = name)); [apply NoDup_nil_2|apply H].
Qed.

Lemma keeps_unique_fetch_settled E u : keeps keeps_unique (fetch_settled E u).
Proof. intros w H name. apply H. Qed.

Lemma keeps_unique_skipWaiting : keeps keeps_unique skipWaiting.
Proof. intros w H name. apply H. Qed.

Lemma keeps_unique_caches_keys : keeps keeps_unique caches_keys.
Proof. intros w H. apply H. Qed.

Ltac keeps_unique_auto :=
  repeat first
    [ keeps_step
    | apply keeps_unique_put | apply keeps_unique_delete
    | apply keeps_unique_detached | apply keeps_unique_caches_delete
    | apply keeps_unique_fetch_settled | apply keeps_unique_skipWaiting
    | apply keeps_unique_caches_keys
    | apply keeps_unique_of_same_contents;
        first [ apply same_contents_fetch | apply same_contents_open
              | apply same_contents_match | apply same_contents_fallback
              | intros ?; apply same_contents_emit ] ].

Lemma keeps_unique_cleanupCache name N : keeps keeps_unique (cleanupCache name N).
Proof. unfold cleanupCache, cache_keys. keeps_unique_auto. Qed.

Lemma keeps_unique_run_strategy E req config : keeps keeps_unique (run_strategy E req config).
Proof.
  unfold run_strategy.
  destruct (strategy config);
    unfold as_value, cacheFirst, cacheFirst_network, networkFirst,
      staleWhileRevalidate, networkPromise, cacheOnly, cacheResponse;
    keeps_unique_auto.
Qed.

Lemma keeps_unique_handled E req config :
  keeps keeps_unique
    (try_catch (run_strategy E req config)
       (fun error => as_value (handleOfflineFallback req))).
Proof.
  keeps_step; [apply keeps_unique_run_strategy|].
  unfold as_value. keeps_unique_auto.
Qed.

Lemma keeps_unique_handleRequest E req config : keeps keeps_unique (handleRequest E req config).
Proof.
  unfold handleRequest. keeps_step;
    [apply keeps_unique_handled|apply keeps_unique_cleanupCache].
Qed.

Lemma keeps_unique_fetch_each E urls : keeps keeps_unique (fetch_each E urls).
Proof. induction urls as [|u urls IH]; cbn [fetch_each]; keeps_unique_auto. exact IH. Qed.

Lemma keeps_unique_onInstall E : keeps keeps_unique (onInstall E).
Proof.
  unfold onInstall, cache_addAll, install_model.
  keeps_step; [|keeps_unique_auto].
  keeps_step; [apply keeps_unique_of_same_contents, same_contents_open|].
  keeps_step; [|keeps_unique_auto].
  keeps_step; [apply keeps_unique_fetch_each|keeps_unique_auto].
Qed.

Lemma keeps_unique_prefetchModels E urls : keeps keeps_unique (prefetchModels E urls).
Proof. unfold prefetchModels. keeps_unique_auto. Qed.

Lemma keeps_unique_settle : keeps keeps_unique settle.
Proof.
  intros w H. unfold settle.
  assert (Hk : keeps keeps_unique
                 (forEach (fun p : string * string * response =>
                             try_catch (cache_put p.1.1 p.1.2 p.2) (fun _ => ret tt))
                    (background w))).
  { apply keeps_forEach; [exact _|]. intros p. keeps_step; [apply keeps_unique_put|keeps_step]. }
  apply (Hk (World (caches w) (trace w) [])). intros name. apply H.
Qed.

Lemma keeps_unique_cleanupOldCaches : keeps keeps_unique cleanupOldCaches.
Proof. unfold cleanupOldCaches. keeps_unique_auto. Qed.

Lemma keeps_unique_onMessage E c : keeps keeps_unique (onMessage E c).
Proof.
  destruct c; unfold onMessage, replying, clearSpecificCache; keeps_unique_auto.
  apply keeps_unique_prefetchModels.
Qed.

Lemma unique_keys_empty_world : unique_keys empty_world.
Proof.
  intros name. unfold store_of, empty_world. cbn [caches].
  rewrite lookup_empty. apply NoDup_nil_2.
Qed.

(** X4: no handler of the worker ever leaves two entries for one key in a
    store: if every store has one entry per key, it still has after a
    request has been handled, after the pending writes have completed,
    after install, after activation and after a command of the message
    listener. *)
Theorem handlers_keep_one_entry_per_key E req config c w
    (Hw : unique_keys w) :
  unique_keys (handleRequest E req config w).2 /\
  unique_keys (settle w).2 /\
  unique_keys (onInstall E w).2 /\
  unique_keys (onActivate w).2 /\
  unique_keys (onMessage E c w).2.
Proof.
  split; [by apply keeps_unique_handleRequest|].
  split; [by apply keeps_unique_settle|].
  split; [by apply keeps_unique_onInstall|].
  split; [|by apply keeps_unique_onMessage].
  revert Hw. change (keeps_unique w (onActivate w).2). revert w.
  change (keeps keeps_unique onActivate).
  unfold onActivate. keeps_unique_auto. apply keeps_unique_cleanupOldCaches.
Qed.

Lemma handlers_keep_one_entry_per_key_witness :
  unique_keys (onInstall (online 0) empty_world).2.
Proof.
  exact (proj1 (proj2 (proj2 (handlers_keep_one_entry_per_key (online 0) logo_request
           route_static SKIP_WAITING empty_world unique_keys_empty_world)))).
Defined.

(** ** The bound of a store after a request *)

#[local] Instance same_background_preorder : PreOrder same_background.
Proof.
  split; [by intros w|]. intros w1 w2 w3 H1 H2. unfold same_background in *. congruence.
Qed.

Lemma same_contents_same_background w w' : same_contents w w' -> same_background w w'.
Proof. by intros [_ H]. Qed.

Lemma same_background_of_same_contents {A} (m : M A) :
  keeps same_contents m -> keeps same_background m.
Proof. intros H w. apply same_contents_same_background, H. Qed.

Lemma same_background_put c k r : keeps same_background (cache_put c k r).
Proof. intros w. unfold cache_put. by destruct (storable r). Qed.

Lemma same_background_delete c k : keeps same_background (cache_delete c k).
Proof. by intros w. Qed.

Lemma same_background_keys c : keeps same_background (cache_keys c).
Proof. by intros w. Qed.

Ltac same_background_auto :=
  repeat first
    [ keeps_step
    | apply same_background_put | apply same_background_delete
    | apply same_background_keys
    | apply same_background_of_same_contents;
        first [ apply same_contents_fetch | apply same_contents_open
              | apply same_contents_match | apply same_contents_fallback ] ].

Lemma same_background_cleanupCache name N : keeps same_background (cleanupCache name N).
Proof. unfold cleanupCache. same_background_auto. Qed.

Lemma same_background_awaited E req config :
  strategy config <> STALE_WHILE_REVALIDATE ->
  keeps same_background (handleRequest E req config).
Proof.
  intros Hs. unfold handleRequest. keeps_step; [|apply same_background_cleanupCache].
  keeps_step.
  - unfold run_strategy. destruct (strategy config); try done;
      unfold as_value, cacheFirst, cacheFirst_network, networkFirst, cacheOnly, cacheResponse;
      same_background_auto.
  - unfold as_value. same_background_auto.
Qed.

Lemma handleRequest_pending E req config w :
  (length (background (handleRequest E req config w).2) <= S (length (background w)))%nat.
Proof.
  assert (Hdec : strategy config = STALE_WHILE_REVALIDATE \/
                 strategy config <> STALE_WHILE_REVALIDATE)
    by (destruct (strategy config); auto; by right).
  destruct Hdec as [Hs|Hs].
  - unfold handleRequest. rewrite try_finally_cleanup. cbn [snd].
    rewrite (same_background_cleanupCache _ _ _).
    unfold try_catch, run_strategy. rewrite Hs, staleWhileRevalidate_eq. cbv zeta.
    destruct (net E (key_of req)) as [r|e]; [|cbn; lia].
    destruct (ok r); cbn; [|lia]. rewrite length_app. cbn. lia.
  - rewrite (same_background_awaited E req config Hs w). lia.
Qed.

Lemma length_store_delete k c : (length (store_delete k c) <= length c)%nat.
Proof. apply List.filter_length_le. Qed.

Lemma length_store_put k r c : (length (store_put k r c) <= S (length c))%nat.
Proof.
  unfold store_put. rewrite length_app. cbn.
  pose proof (length_store_delete k c). lia.
Qed.

Lemma settle_length name w :
  (length (store_of name (settle w).2) <= length (store_of name w) + length (background w))%nat.
Proof.
  unfold settle.
  assert (Hgen : forall l w0,
            (length (store_of name
               (forEach (fun p : string * string * response =>
                           try_catch (cache_put p.1.1 p.1.2 p.2) (fun _ => ret tt)) l w0).2)
             <= length (store_of name w0) + length l)%nat).
  { induction l as [|[[c k] r] l IH]; intros w0; [cbn; lia|].
    rewrite (forEach_cons_returned
               (fun p : string * string * response =>
                  try_catch (cache_put p.1.1 p.1.2 p.2) (fun _ => ret tt))
               (c, k, r) l w0 _ (lenient_put_eq c k r w0)).
    etransitivity; [apply IH|]. cbn [length].
    destruct (storable r); [|rewrite store_of_emit; lia].
    rewrite store_of_put_into. destruct (decide (c = name)) as [->|]; [|lia].
    pose proof (length_store_put k r (store_of name w0)). lia. }
  apply (Hgen (background w) (World (caches w) (trace w) [])).
Qed.

Lemma store_within_bound_after E req config w :
  unique_keys w -> 0 < maxEntries config ->
  Z.of_nat (length (store_of (cacheName config) (handleRequest E req config w).2))
  <= maxEntries config.
Proof.
  intros Hw HN. unfold handleRequest. rewrite try_finally_cleanup. cbn [snd].
  set (w1 := (try_catch _ _ w).2).
  assert (Hw1 : unique_keys w1) by (by apply keeps_unique_handled).
  destruct (cleanupCache_store (cacheName config) (maxEntries config) w1) as [_ ->]; [lia|].
  rewrite trim_drop by (lia || apply Hw1). rewrite length_drop. lia.
Qed.

Lemma bound_once_settled E req config w :
  unique_keys w -> 0 < maxEntries config -> background w = [] ->
  Z.of_nat (length (store_of (cacheName config)
                      (settle (handleRequest E req config w).2).2))
  <= maxEntries config + 1.
Proof.
  intros Hw HN Hidle.
  pose proof (store_within_bound_after E req config w Hw HN) as H1.
  pose proof (handleRequest_pending E req config w) as H2. rewrite Hidle in H2.
  pose proof (settle_length (cacheName config) (handleRequest E req config w).2) as H3.
  cbn [length] in H2. lia.
Qed.

(** X5: after a request has been handled, whether it succeeded, fell back
    or failed, the store of its policy is within [maxEntries] again (for a
    positive [maxEntries], stores with one entry per key and nothing
    pending before).  Under the strategies that await their write this
    holds when [handleRequest] returns, and nothing is left pending.
    Under STALE_WHILE_REVALIDATE the write is not awaited and may land
    after the eviction step: once it has completed the store holds at most
    [maxEntries + 1] entries. *)
Theorem handleRequest_leaves_store_within_bound E req config w
    (Hw : unique_keys w) (HN : 0 < maxEntries config) (Hidle : background w = []) :
  let w1 := (handleRequest E req config w).2 in
  (strategy config <> STALE_WHILE_REVALIDATE ->
     Z.of_nat (length (store_of (cacheName config) w1)) <= maxEntries config /\
     background w1 = []) /\
  Z.of_nat (length (store_of (cacheName config) (settle w1).2)) <= maxEntries config + 1.
Proof.
  cbv zeta. split; [|by apply bound_once_settled].
  intros Hs. split; [by apply store_within_bound_after|].
  by rewrite (same_background_awaited E req config Hs w).
Qed.

Lemma handleRequest_leaves_store_within_bound_witness :
  Z.of_nat (length (store_of IMAGE_CACHE
    (settle (handleRequest (online 4) gallery_request
               (Route None STALE_WHILE_REVALIDATE IMAGE_CACHE 10 1)
               (world_with IMAGE_CACHE [("a", served "a")])).2).2)) <= 1 + 1.
Proof.
  apply (handleRequest_leaves_store_within_bound (online 4) gallery_request
           (Route None STALE_WHILE_REVALIDATE IMAGE_CACHE 10 1)
           (world_with IMAGE_CACHE [("a", served "a")])).
  - intros name. unfold store_of, world_with. cbn [caches].
    destruct (decide (name = IMAGE_CACHE)) as [->|Hne].
    + rewrite lookup_singleton_eq. cbn. repeat constructor. by intros H%elem_of_nil.
    + rewrite lookup_singleton_ne by done. apply NoDup_nil_2.
  - reflexivity.
  - reflexivity.
Defined.

Example stale_while_revalidate_exceeds_the_bound_by_one :
  let w1 := (handleRequest (online 4) gallery_request
               (Route None STALE_WHILE_REVALIDATE IMAGE_CACHE 10 1)
               (world_with IMAGE_CACHE [("a", served "a")])).2 in
  length (store_of IMAGE_CACHE w1) = 1%nat /\
  length (background w1) = 1%nat /\
  length (store_of IMAGE_CACHE (settle w1).2) = 2%nat.
Proof. vm_compute. auto. Qed.

(** ** Writing an entry and reading it back *)

Lemma store_lookup_put_into_same c k r w :
  store_lookup c k (put_into c k r w) = Some r.
Proof. by rewrite store_lookup_put_into, decide_True, String.eqb_refl. Qed.

Lemma status_eqb_206 r : status r <> 206 -> (status r =? 206) = false.
Proof. intros H. by apply Z.eqb_neq. Qed.

Lemma networkFirst_ok E req name d w r :
  net E (key_of req) = inl r -> ok r = true -> status r <> 206 ->
  networkFirst E req name d w =
  (Returned r,
   put_into name (key_of req) (stamped E r) (emit (EvFetch (key_of req)) (opened name w))).
Proof.
  intros Hn Hok Hs. unfold networkFirst, try_catch, bind, fetch, caches_open.
  by rewrite Hn, Hok, cacheResponse_eq, status_eqb_206.
Qed.

Lemma networkFirst_partial E req name d w r :
  net E (key_of req) = inl r -> ok r = true -> status r = 206 ->
  networkFirst E req name d w =
  (match store_lookup name (key_of req) w with
   | Some r0 => Returned r0
   | None => Thrown put_rejected
   end,
   emit (EvMatch name (key_of req))
     (emit (EvPut name (key_of req)) (emit (EvFetch (key_of req)) (opened name w)))).
Proof.
  intros Hn Hok Hs. unfold networkFirst, try_catch, bind, fetch, caches_open, cache_match.
  rewrite Hn, Hok, cacheResponse_eq, Hs. cbn [Z.eqb Pos.eqb].
  rewrite !store_lookup_emit, store_lookup_opened.
  by destruct (store_lookup name (key_of req) w).
Qed.

Lemma cacheFirst_network_ok E c req cached w r :
  net E (key_of req) = inl r -> ok r = true -> status r <> 206 ->
  cacheFirst_network E c req cached w =
  (Returned r, put_into c (key_of req) (stamped E r) (emit (EvFetch (key_of req)) w)).
Proof.
  intros Hn Hok Hs. unfold cacheFirst_network, try_catch, bind, fetch.
  by rewrite Hn, Hok, cacheResponse_eq, status_eqb_206.
Qed.

Lemma cacheFirst_network_partial E c req cached w r :
  net E (key_of req) = inl r -> ok r = true -> status r = 206 ->
  cacheFirst_network E c req cached w =
  (match cached with Some r0 => Returned r0 | None => Thrown put_rejected end,
   emit (EvPut c (key_of req)) (emit (EvFetch (key_of req)) w)).
Proof.
  intros Hn Hok Hs. unfold cacheFirst_network, try_catch, bind, fetch.
  rewrite Hn, Hok, cacheResponse_eq, Hs. cbn [Z.eqb Pos.eqb].
  by destruct cached.
Qed.

(** X6: a response that [networkFirst] fetched at time [t1] with an [ok]
    status other than 206 (which the Cache would not accept) is handed to
    the caller and stored with that time as its stamp, with the same status
    and body.  A later [cacheFirst] on the same store at time [t2] serves
    the stored copy without a fetch as long as [t2 - t1 <= maxAge]; after
    that it goes to the network, and still serves the stored copy if the
    network fails. *)
Theorem fetched_response_is_served_until_maxAge E1 E2 req name d1 d w r
    (Hnet : net E1 (key_of req) = inl r) (Hok : ok r = true)
    (Hfull : status r <> 206) :
  let w1 := (networkFirst E1 req name d1 w).2 in
  let copy := stamped E1 r in
  (networkFirst E1 req name d1 w).1 = Returned r /\
  store_lookup name (key_of req) w1 = Some copy /\
  status copy = status r /\ body copy = body r /\ swCacheTime copy = Some (now E1) /\
  (now E2 - now E1 <= d ->
     (cacheFirst E2 req name d w1).1 = Returned copy /\
     ~ fetch_attempted (cacheFirst E2 req name d) w1 (key_of req)) /\
  (d < now E2 - now E1 ->
     fetch_attempted (cacheFirst E2 req name d) w1 (key_of req) /\
     forall e, net E2 (key_of req) = inr e ->
       (cacheFirst E2 req name d w1).1 = Returned copy).
Proof.
  intros w1 copy. subst w1 copy.
  rewrite (networkFirst_ok _ _ _ _ _ _ Hnet Hok Hfull). cbn [fst snd].
  set (w1 := put_into _ _ _ _).
  assert (Hl : store_lookup name (key_of req) w1 = Some (stamped E1 r))
    by apply store_lookup_put_into_same.
  assert (Hx : isExpired E2 (stamped E1 r) d = (now E2 - now E1 >? d)) by reflexivity.
  split; [done|]. split; [done|]. split; [done|]. split; [done|]. split; [done|]. split.
  - intros Hage.
    assert (Hf : isExpired E2 (stamped E1 r) d = false)
      by (rewrite Hx, Z.gtb_ltb; apply Z.ltb_ge; lia).
    split; [by rewrite (cacheFirst_fresh _ _ _ _ _ _ Hl Hf)|].
    by apply (not_fetch_attempted_fresh _ _ _ _ _ (stamped E1 r)).
  - intros Hage.
    assert (Ht : isExpired E2 (stamped E1 r) d = true)
      by (rewrite Hx, Z.gtb_ltb; apply Z.ltb_lt; lia).
    split.
    + apply fetch_attempted_expired. by rewrite Hl.
    + intros e He. by rewrite (cacheFirst_failure _ _ _ _ _ _ He), Hl.
Qed.

Lemma fetched_response_is_served_until_maxAge_witness :
  (cacheFirst (offline 150) logo_request "s" 100
     (networkFirst (online 50) logo_request "s" 7 empty_world).2).1
  = Returned (stamped (online 50) (served (key_of logo_request))).
Proof.
  pose proof (fetched_response_is_served_until_maxAge (online 50) (offline 150)
                logo_request "s" 7 100 empty_world (served (key_of logo_request))
                eq_refl eq_refl) as H.
  destruct H as (_ & _ & _ & _ & _ & H & _); [vm_compute; discriminate|].
  apply H. vm_compute. discriminate.
Defined.

(** X7: an entry that carries no stamp (as the entries that install and
    prefetch write) counts as inserted at time 0: once the clock is past
    [maxAge], [cacheFirst] always goes to the network for it.  An [ok]
    response of a status other than 206 is returned and replaces the entry
    by its stamped copy; an [ok] response of status 206 is not accepted by
    the Cache, the rejected write is caught like a failed fetch, and the
    entry itself is served and stays; a response that is not [ok] is
    returned and the entry stays; if the network fails the entry itself is
    served. *)
Theorem unstamped_entry_is_revalidated E req name d w r0
    (Hentry : store_lookup name (key_of req) w = Some r0)
    (Hraw : swCacheTime r0 = None) (Hnow : d < now E) :
  let res := cacheFirst E req name d w in
  fetch_attempted (cacheFirst E req name d) w (key_of req) /\
  (forall r, net E (key_of req) = inl r -> ok r = true -> status r <> 206 ->
     res.1 = Returned r /\
     store_lookup name (key_of req) res.2 = Some (stamped E r)) /\
  (forall r, net E (key_of req) = inl r -> ok r = true -> status r = 206 ->
     res.1 = Returned r0 /\ store_lookup name (key_of req) res.2 = Some r0) /\
  (forall r, net E (key_of req) = inl r -> ok r = false ->
     res.1 = Returned r /\ store_lookup name (key_of req) res.2 = Some r0) /\
  (forall e, net E (key_of req) = inr e ->
     res.1 = Returned r0 /\ store_lookup name (key_of req) res.2 = Some r0).
Proof.
  intros res. subst res.
  assert (Hx : isExpired E r0 d = true).
  { unfold isExpired, cacheTime. rewrite Hraw. cbn. rewrite Z.gtb_ltb. apply Z.ltb_lt. lia. }
  assert (Hc : match store_lookup name (key_of req) w with
               | Some r => isExpired E r d = true
               | None => True
               end) by (by rewrite Hentry).
  split; [by apply fetch_attempted_expired|].
  rewrite (cacheFirst_consults_network _ _ _ _ _ Hc), Hentry.
  split; [|split; [|split]].
  - intros r Hn Hok Hs. rewrite (cacheFirst_network_ok _ _ _ _ _ _ Hn Hok Hs).
    split; [done|apply store_lookup_put_into_same].
  - intros r Hn Hok Hs. rewrite (cacheFirst_network_partial _ _ _ _ _ _ Hn Hok Hs).
    split; [done|]. cbn [snd]. by rewrite !store_lookup_emit, store_lookup_opened.
  - intros r Hn Hok. rewrite (cacheFirst_network_not_ok _ _ _ _ _ _ Hn Hok).
    split; [done|]. cbn [snd]. by rewrite !store_lookup_emit, store_lookup_opened.
  - intros e Hn. rewrite (cacheFirst_network_failure _ _ _ _ _ _ Hn).
    split; [done|]. cbn [snd]. by rewrite !store_lookup_emit, store_lookup_opened.
Qed.

Lemma unstamped_entry_is_revalidated_witness :
  fetch_attempted (cacheFirst (online 700000000) logo_request STATIC_CACHE (maxAge route_static))
    (world_with STATIC_CACHE [(key_of logo_request, served "precached")])
    (key_of logo_request) /\
  (cacheFirst (answering 700000000 (key_of logo_request) 206) logo_request STATIC_CACHE
     (maxAge route_static)
     (world_with STATIC_CACHE [(key_of logo_request, served "precached")])).1
  = Returned (served "precached").
Proof.
  split.
  - apply (unstamped_entry_is_revalidated (online 700000000) logo_request STATIC_CACHE
             (maxAge route_static)
             (world_with STATIC_CACHE [(key_of logo_request, served "precached")])
             (served "precached")).
    + vm_compute. reflexivity.
    + reflexivity.
    + vm_compute. reflexivity.
  - pose proof (unstamped_entry_is_revalidated
                  (answering 700000000 (key_of logo_request) 206) logo_request STATIC_CACHE
                  (maxAge route_static)
                  (world_with STATIC_CACHE [(key_of logo_request, served "precached")])
                  (served "precached")) as H.
    destruct H as (_ & _ & H & _); [vm_compute; reflexivity|reflexivity|vm_compute; reflexivity|].
    apply (H (Response 206 "" [] None "")); vm_compute; reflexivity.
Defined.

(** ** Revalidation in the background *)

Lemma settle_single c k r w :
  background w = [(c, k, r)] ->
  (settle w).2 = if storable r then put_into c k r (World (caches w) (trace w) [])
                 else emit (EvPut c k) (World (caches w) (trace w) []).
Proof.
  intros Hb. unfold settle. rewrite Hb.
  rewrite (forEach_cons_returned
             (fun p : string * string * response =>
                try_catch (cache_put p.1.1 p.1.2 p.2) (fun _ => ret tt))
             (c, k, r) [] _ _ (lenient_put_eq c k r _)).
  reflexivity.
Qed.

(** X8: [staleWhileRevalidate] with an [ok] response from the network, of a
    status other than 206, and no write pending before: the fetch is issued
    whether or not the key is cached, and the caller gets the cached entry
    if there is one and the network response otherwise.  With a cached
    entry the stores still hold what they held when the function returns.
    One write is left pending, of a copy with the status and the body of
    the response and with a stamp; once that write completes, the entry
    for the key is this copy and nothing is pending. *)
Theorem staleWhileRevalidate_refreshes_in_background E req name d w r
    (Hnet : net E (key_of req) = inl r) (Hok : ok r = true)
    (Hfull : status r <> 206) (Hidle : background w = []) :
  let res := staleWhileRevalidate E req name d w in
  res.1 = Returned (Resp (match store_lookup name (key_of req) w with
                          | Some c => c
                          | None => r
                          end)) /\
  fetch_attempted (staleWhileRevalidate E req name d) w (key_of req) /\
  (forall c, store_lookup name (key_of req) w = Some c ->
     forall n, store_of n res.2 = store_of n w) /\
  (exists copy,
     background res.2 = [(name, key_of req, copy)] /\
     status copy = status r /\ body copy = body r /\
     (exists t, swCacheTime copy = Some t) /\
     store_lookup name (key_of req) (settle res.2).2 = Some copy) /\
  background (settle res.2).2 = [].
Proof.
  intros res. subst res. unfold fetch_attempted.
  rewrite staleWhileRevalidate_eq. cbv zeta. rewrite Hnet, Hok. cbn [fst snd].
  set (w1 := queued _ _ _ _).
  assert (Hb : background w1 = [(name, key_of req, stamped E r)])
    by (unfold w1, queued; cbn; by rewrite Hidle).
  assert (Hs : storable (stamped E r) = true)
    by (by rewrite storable_stamped, status_eqb_206).
  split; [by destruct (store_lookup name (key_of req) w)|]. split.
  { rewrite (new_events_app w w1
               [EvOpen name; EvMatch name (key_of req); EvFetch (key_of req)]).
    - cbn. tauto.
    - unfold w1, queued. cbn. by rewrite <- !app_assoc. }
  split; [intros c _ n; apply store_of_opened|].
  rewrite (settle_single _ _ _ _ Hb), Hs. split; [|done].
  exists (stamped E r). split; [exact Hb|]. split; [done|]. split; [done|].
  split; [by exists (now E)|apply store_lookup_put_into_same].
Qed.

Lemma staleWhileRevalidate_refreshes_in_background_witness :
  background
    (settle (staleWhileRevalidate (online 8) gallery_request IMAGE_CACHE 100
               (world_with IMAGE_CACHE [(key_of gallery_request, served "old")])).2).2 = [] /\
  option_map body
    (store_lookup IMAGE_CACHE (key_of gallery_request)
       (settle (staleWhileRevalidate (online 8) gallery_request IMAGE_CACHE 100
                  (world_with IMAGE_CACHE [(key_of gallery_request, served "old")])).2).2)
  = Some (body (served (key_of gallery_request))).
Proof.
  pose proof (staleWhileRevalidate_refreshes_in_background (online 8) gallery_request
                IMAGE_CACHE 100
                (world_with IMAGE_CACHE [(key_of gallery_request, served "old")])
                (served (key_of gallery_request)) eq_refl eq_refl) as H.
  destruct H as (_ & _ & _ & (copy & _ & _ & Hb & _ & Hl) & Hp);
    [vm_compute; discriminate|reflexivity|].
  split; [exact Hp|]. rewrite Hl. cbn [option_map]. by rewrite Hb.
Defined.

(** ** A response the Cache does not accept *)

Lemma ok_206 r : status r = 206 -> ok r = true.
Proof. intros H. unfold ok. by rewrite H. Qed.

Lemma cacheFirst_partial E req name d w r :
  net E (key_of req) = inl r -> status r = 206 ->
  (cacheFirst E req name d w).1 =
    match store_lookup name (key_of req) w with
    | Some r0 => Returned r0
    | None => Thrown put_rejected
    end /\
  forall n, store_of n (cacheFirst E req name d w).2 = store_of n w.
Proof.
  intros Hn Hs. pose proof (ok_206 r Hs) as Hok.
  destruct (store_lookup name (key_of req) w) as [r0|] eqn:Hl.
  - destruct (isExpired E r0 d) eqn:Hx.
    + rewrite cacheFirst_consults_network by (by rewrite Hl). rewrite Hl.
      rewrite (cacheFirst_network_partial _ _ _ _ _ r Hn Hok Hs).
      split; [done|]. intros n. cbn [snd]. by rewrite !store_of_emit, store_of_opened.
    + rewrite (cacheFirst_fresh _ _ _ _ _ _ Hl Hx).
      split; [done|intros n; apply store_of_opened].
  - rewrite cacheFirst_consults_network by (by rewrite Hl). rewrite Hl.
    rewrite (cacheFirst_network_partial _ _ _ _ _ r Hn Hok Hs).
    split; [done|]. intros n. cbn [snd]. by rewrite !store_of_emit, store_of_opened.
Qed.

(** X19: a response of status 206 is [ok], so every strategy tries to store
    it, and the Cache rejects the write.  [cacheFirst] and [networkFirst]
    catch the rejection like a failed fetch: the caller gets the cached
    entry for the key if there is one and the rejection otherwise, not the
    response.  [staleWhileRevalidate] does not await the write: the caller
    gets the cached entry or else the response, and the rejection is lost.
    In all three the stores hold afterwards what they held before, also
    once the pending write has completed. *)
Theorem partial_response_is_never_stored E req name d w r
    (Hnet : net E (key_of req) = inl r) (Hpartial : status r = 206)
    (Hidle : background w = []) :
  let cached := store_lookup name (key_of req) w in
  let served_or_rejected :=
    match cached with
    | Some r0 => Returned r0
    | None => Thrown put_rejected
    end in
  let swr := staleWhileRevalidate E req name d w in
  (cacheFirst E req name d w).1 = served_or_rejected /\
  (networkFirst E req name d w).1 = served_or_rejected /\
  swr.1 = Returned (Resp (match cached with Some c => c | None => r end)) /\
  (forall n, store_of n (cacheFirst E req name d w).2 = store_of n w) /\
  (forall n, store_of n (networkFirst E req name d w).2 = store_of n w) /\
  (forall n, store_of n (settle swr.2).2 = store_of n w) /\
  background (settle swr.2).2 = [].
Proof.
  cbv zeta. pose proof (ok_206 r Hpartial) as Hok.
  destruct (cacheFirst_partial E req name d w r Hnet Hpartial) as [Hc1 Hc2].
  rewrite (networkFirst_partial _ _ _ _ _ _ Hnet Hok Hpartial).
  rewrite staleWhileRevalidate_eq. cbv zeta. rewrite Hnet, Hok. cbn [fst snd].
  set (w1 := queued _ _ _ _).
  assert (Hb : background w1 = [(name, key_of req, stamped E r)])
    by (unfold w1, queued; cbn; by rewrite Hidle).
  assert (Hs : storable (stamped E r) = false)
    by (by rewrite storable_stamped, Hpartial).
  rewrite (settle_single _ _ _ _ Hb), Hs.
  split; [exact Hc1|]. split; [done|].
  split; [by destruct (store_lookup name (key_of req) w)|].
  split; [exact Hc2|].
  split; [intros n; by rewrite !store_of_emit, store_of_opened|].
  split; [|done]. intros n. rewrite store_of_emit. apply store_of_opened.
Qed.

Lemma partial_response_is_never_stored_witness :
  (networkFirst (answering 5 (key_of gallery_request) 206) gallery_request IMAGE_CACHE 100
     empty_world).1 = Thrown put_rejected /\
  store_of IMAGE_CACHE
    (settle (staleWhileRevalidate (answering 5 (key_of gallery_request) 206)
               gallery_request IMAGE_CACHE 100 empty_world).2).2
  = store_of IMAGE_CACHE empty_world.
Proof.
  pose proof (partial_response_is_never_stored (answering 5 (key_of gallery_request) 206)
                gallery_request IMAGE_CACHE 100 empty_world
                (Response 206 "" [] None "") eq_refl eq_refl eq_refl) as H.
  destruct H as (_ & H1 & _ & _ & _ & H2 & _). split; [exact H1|apply H2].
Defined.

(** ** Install and prefetch *)

Lemma fetch_each_eq E urls w :
  fetch_each E urls w =
  (Returned (List.map (fun u => (u, net E u)) urls),
   World (caches w) (trace w ++ List.map EvFetch urls) (background w)).
Proof.
  revert w. induction urls as [|u urls IH]; intros [cs tr bg].
  - cbn. by rewrite app_nil_r.
  - cbn [fetch_each]. unfold bind, fetch_settled. rewrite IH. cbn.
    by rewrite <- app_assoc.
Qed.

Lemma first_failure_None E urls :
  (forall u, In u urls -> exists r, net E u = inl r /\ ok r = true /\ storable r = true) ->
  first_failure (List.map (fun u => (u, net E u)) urls) = None.
Proof.
  induction urls as [|u urls IH]; intros H; [done|]. cbn.
  destruct (H u) as (r & -> & -> & ->); [by left|].
  apply IH. intros v Hv. apply H. by right.
Qed.

Lemma first_failure_None_storable results :
  first_failure results = None ->
  Forall (fun p : string * response => storable p.2 = true) (fulfilled results).
Proof.
  induction results as [|[u [r|e]] rest IH]; intros H; cbn in *; [constructor| |done].
  destruct (ok r); [|done]. destruct (storable r) eqn:Hs; [|done].
  constructor; [exact Hs|by apply IH].
Qed.

Lemma first_failure_Some E urls u :
  In u urls ->
  match net E u with inl r => ok r = false | inr _ => True end ->
  exists e, first_failure (List.map (fun u => (u, net E u)) urls) = Some e.
Proof.
  induction urls as [|v urls IH]; intros Hin Hbad; [destruct Hin|]. cbn.
  destruct (net E v) as [r|e] eqn:Hv; [|by eexists].
  destruct (ok r) eqn:Hok; [|by eexists].
  destruct (storable r); [|by eexists]. cbn [andb].
  destruct Hin as [->|Hin]; [|by apply IH].
  rewrite Hv in Hbad. congruence.
Qed.

Lemma forEach_put_store c (l : list (string * response)) w :
  Forall (fun p : string * response => storable p.2 = true) l ->
  let res := forEach (fun p : string * response => cache_put c p.1 p.2) l w in
  res.1 = Returned tt /\
  store_of c res.2 = fold_left (fun s p => store_put p.1 p.2 s) l (store_of c w) /\
  untouched_except c w res.2 /\
  continues w res.2 /\
  background res.2 = background w.
Proof.
  cbv zeta. intros Hl. revert w. induction Hl as [|[k r] l Hr Hl IH]; intros w.
  - cbn. repeat split; try done. exists []. by rewrite app_nil_r.
  - cbn [snd] in Hr.
    rewrite (forEach_cons_returned
               (fun p : string * response => cache_put c p.1 p.2)
               (k, r) l w (put_into c k r w) (cache_put_storable c k r w Hr)).
    cbn [fold_left fst snd].
    destruct (IH (put_into c k r w)) as (H1 & H2 & H3 & (l' & H4) & H5).
    split; [exact H1|]. split.
    { rewrite H2. by rewrite store_of_put_into, decide_True. }
    split.
    { intros name Hne. rewrite (H3 name Hne), store_of_put_into. by rewrite decide_False. }
    split; [|exact H5].
    exists (EvPut c k :: l'). rewrite H4. cbn. by rewrite <- app_assoc.
Qed.

Lemma fold_put_fulfilled E urls s k :
  store_match k
    (fold_left (fun s (p : string * response) => store_put p.1 p.2 s)
       (fulfilled (List.map (fun u => (u, net E u)) urls)) s) =
  match net E k with
  | inl r => if bool_decide (k ∈ urls) then Some r else store_match k s
  | inr _ => store_match k s
  end.
Proof.
  revert s. induction urls as [|u urls IH]; intros s.
  - cbn. by destruct (net E k).
  - cbn [List.map fulfilled]. destruct (net E u) as [ru|eu] eqn:Hu.
    + cbn [fold_left fst snd]. rewrite IH, store_match_put.
      destruct (String.eqb_spec u k) as [->|Hne].
      * rewrite Hu. rewrite (bool_decide_eq_true_2 (k ∈ k :: urls)) by (by left).
        by destruct (bool_decide (k ∈ urls)).
      * destruct (net E k) as [rk|]; [|done].
        destruct (bool_decide_reflect (k ∈ urls)) as [Hin|Hnin].
        -- by rewrite bool_decide_eq_true_2 by (by right).
        -- rewrite bool_decide_eq_false_2; [done|].
           intros [?|?]%elem_of_cons; congruence.
    + rewrite IH. destruct (net E k) as [rk|] eqn:Hk; [|done].
      destruct (bool_decide_reflect (k ∈ urls)) as [Hin|Hnin].
      * by rewrite bool_decide_eq_true_2 by (by right).
      * rewrite bool_decide_eq_false_2; [done|].
        intros [?|?]%elem_of_cons; congruence.
Qed.

Lemma cache_addAll_success E c urls w :
  first_failure (List.map (fun u => (u, net E u)) urls) = None ->
  (cache_addAll E c urls w).1 = Returned tt /\
  (forall k,
     store_lookup c k (cache_addAll E c urls w).2 =
     match net E k with
     | inl r => if bool_decide (k ∈ urls) then Some r else store_lookup c k w
     | inr _ => store_lookup c k w
     end) /\
  untouched_except c w (cache_addAll E c urls w).2 /\
  continues w (cache_addAll E c urls w).2.
Proof.
  intros Hff. unfold cache_addAll, bind. rewrite fetch_each_eq, Hff.
  set (w1 := World (caches w) (trace w ++ List.map EvFetch urls) (background w)).
  destruct (forEach_put_store c (fulfilled (List.map (fun u => (u, net E u)) urls)) w1
              (first_failure_None_storable _ Hff))
    as (H1 & H2 & H3 & (l & H4) & _).
  split; [exact H1|]. split; [|split].
  - intros k. unfold store_lookup at 1. rewrite H2. apply fold_put_fulfilled.
  - exact H3.
  - exists (List.map EvFetch urls ++ l). rewrite H4. unfold w1. cbn. by rewrite <- app_assoc.
Qed.

Lemma cache_addAll_failure E c urls w e :
  first_failure (List.map (fun u => (u, net E u)) urls) = Some e ->
  cache_addAll E c urls w =
  (Thrown e, World (caches w) (trace w ++ List.map EvFetch urls) (background w)).
Proof. intros Hff. unfold cache_addAll, bind. by rewrite fetch_each_eq, Hff. Qed.

Lemma install_model_eq E c u w :
  install_model E c u w =
  (Returned tt,
   match net E u with
   | inl r =>
       if ok r then
         if storable r then put_into c u r (emit (EvFetch u) w)
         else emit (EvPut c u) (emit (EvFetch u) w)
       else emit (EvFetch u) w
   | inr _ => emit (EvFetch u) w
   end).
Proof.
  unfold install_model, try_catch, bind, fetch, cache_put, ret.
  destruct (net E u) as [r|e]; [|done]. destruct (ok r); [|done].
  by destruct (storable r).
Qed.

Lemma forEach_install_model E c urls w :
  (forEach (install_model E c) urls w).1 = Returned tt /\
  (forall k,
     store_lookup c k (forEach (install_model E c) urls w).2 =
     match net E k with
     | inl r => if ok r && storable r && bool_decide (k ∈ urls) then Some r
                else store_lookup c k w
     | inr _ => store_lookup c k w
     end) /\
  untouched_except c w (forEach (install_model E c) urls w).2 /\
  continues w (forEach (install_model E c) urls w).2 /\
  background (forEach (install_model E c) urls w).2 = background w.
Proof.
  revert w. induction urls as [|u urls IH]; intros w.
  - cbn. split; [done|]. split.
    { intros k. destruct (net E k) as [r|]; [|done]. by rewrite andb_false_r. }
    split; [done|]. split; [|done]. exists []. by rewrite app_nil_r.
  - rewrite (forEach_cons_returned _ _ _ w _ (install_model_eq E c u w)).
    set (w1 := match net E u with inl _ => _ | inr _ => _ end).
    destruct (IH w1) as (H1 & H2 & H3 & (l & H4) & H5).
    assert (Hstep : (forall k, store_lookup c k w1 =
                       match net E u with
                       | inl r => if ok r && storable r && String.eqb u k then Some r
                                  else store_lookup c k w
                       | inr _ => store_lookup c k w
                       end) /\
                    untouched_except c w w1 /\
                    (exists l1, trace w1 = trace w ++ l1) /\
                    background w1 = background w).
    { unfold w1. destruct (net E u) as [r|e].
      - destruct (ok r); [destruct (storable r)|].
        + split; [intros k; by rewrite store_lookup_put_into, decide_True|].
          split; [intros n Hn; by rewrite store_of_put_into, decide_False|].
          split; [|done]. exists [EvFetch u; EvPut c u]. cbn. by rewrite <- app_assoc.
        + split; [done|]. split; [done|]. split; [|done].
          exists [EvFetch u; EvPut c u]. cbn. by rewrite <- app_assoc.
        + split; [done|]. split; [done|]. split; [|done]. by exists [EvFetch u].
      - split; [done|]. split; [done|]. split; [|done]. by exists [EvFetch u]. }
    destruct Hstep as (S1 & S2 & (l1 & S3) & S4).
    split; [exact H1|]. split; [|split; [|split]].
    + intros k. rewrite H2, S1.
      destruct (net E k) as [rk|ek] eqn:Hk.
      * destruct (String.eqb_spec u k) as [->|Hne].
        -- rewrite Hk. rewrite (bool_decide_eq_true_2 (k ∈ k :: urls)) by (by left).
           destruct (ok rk && storable rk); [|by rewrite !andb_false_l].
           by destruct (bool_decide (k ∈ urls)).
        -- assert (Hb : bool_decide (k ∈ u :: urls) = bool_decide (k ∈ urls)).
           { apply bool_decide_ext. rewrite elem_of_cons. intuition congruence. }
           rewrite Hb. destruct (ok rk && storable rk && bool_decide (k ∈ urls)); [done|].
           destruct (net E u) as [ru|]; [|done]. by rewrite andb_false_r.
      * destruct (net E u) as [ru|] eqn:Hu; [|done].
        destruct (String.eqb_spec u k) as [->|Hne]; [congruence|].
        by rewrite andb_false_r.
    + intros n Hn. by rewrite (H3 n Hn), (S2 n Hn).
    + exists (l1 ++ l). by rewrite H4, S3, app_assoc.
    + by rewrite H5.
Qed.

Lemma onInstall_success_eq E w :
  first_failure (List.map (fun u => (u, net E u)) STATIC_ASSETS) = None ->
  onInstall E w =
  (Returned tt,
   emit EvSkipWaiting
     (forEach (install_model E MODEL_CACHE) MODEL_URLS
        (opened MODEL_CACHE
           (cache_addAll E STATIC_CACHE STATIC_ASSETS (opened STATIC_CACHE w)).2)).2).
Proof.
  intros Hff. unfold onInstall, try_catch, bind, caches_open, skipWaiting.
  destruct (cache_addAll_success E STATIC_CACHE STATIC_ASSETS (opened STATIC_CACHE w) Hff)
    as (H1 & _).
  destruct (cache_addAll E STATIC_CACHE STATIC_ASSETS (opened STATIC_CACHE w)) as [o1 w1].
  cbn [fst snd] in *. subst o1.
  destruct (forEach_install_model E MODEL_CACHE MODEL_URLS (opened MODEL_CACHE w1)) as (H3 & _).
  destruct (forEach (install_model E MODEL_CACHE) MODEL_URLS (opened MODEL_CACHE w1)) as [o3 w3].
  cbn [fst snd] in *. by subst o3.
Qed.

Lemma model_urls_in_manifest u : u ∈ MODEL_URLS -> u ∈ STATIC_ASSETS.
Proof.
  unfold MODEL_URLS, STATIC_ASSETS. rewrite !elem_of_cons, elem_of_nil.
  intros [->|[->|[]]]; repeat (first [by left | right]).
Qed.

Lemma caches_distinct : STATIC_CACHE <> MODEL_CACHE.
Proof. discriminate. Qed.

(** X9: when every URL of the install manifest is fetched with an [ok]
    response that the Cache accepts (its status is not 206 and its [Vary]
    header does not list [*]), install stores each of them in the static
    store and each model URL in the model store, as fetched, leaves the
    other stores alone, calls [skipWaiting], and its promise is
    fulfilled. *)
Theorem install_populates_the_stores E w
    (Hall : forall u, u ∈ STATIC_ASSETS ->
              exists r, net E u = inl r /\ ok r = true /\ storable r = true) :
  let res := onInstall E w in
  res.1 = Returned tt /\
  (forall u r, u ∈ STATIC_ASSETS -> net E u = inl r ->
     store_lookup STATIC_CACHE u res.2 = Some r) /\
  (forall u r, u ∈ MODEL_URLS -> net E u = inl r ->
     store_lookup MODEL_CACHE u res.2 = Some r) /\
  In EvSkipWaiting (new_events w res.2) /\
  (forall name, name <> STATIC_CACHE -> name <> MODEL_CACHE ->
     store_of name res.2 = store_of name w).
Proof.
  intros res. subst res.
  assert (Hff : first_failure (List.map (fun u => (u, net E u)) STATIC_ASSETS) = None).
  { apply first_failure_None. intros u Hu. apply Hall. by apply list_elem_of_In. }
  rewrite (onInstall_success_eq E w Hff). cbn [fst snd].
  destruct (cache_addAll_success E STATIC_CACHE STATIC_ASSETS (opened STATIC_CACHE w) Hff)
    as (_ & A2 & A3 & (la & A4)).
  set (w1 := (cache_addAll E STATIC_CACHE STATIC_ASSETS (opened STATIC_CACHE w)).2) in *.
  destruct (forEach_install_model E MODEL_CACHE MODEL_URLS (opened MODEL_CACHE w1))
    as (_ & M2 & M3 & (lm & M4) & _).
  set (w3 := (forEach (install_model E MODEL_CACHE) MODEL_URLS (opened MODEL_CACHE w1)).2) in *.
  split; [done|]. split; [|split; [|split]].
  - intros u r Hu Hn. rewrite store_lookup_emit. unfold store_lookup.
    rewrite (M3 STATIC_CACHE caches_distinct), store_of_opened.
    fold (store_lookup STATIC_CACHE u w1). rewrite A2, Hn.
    by rewrite bool_decide_eq_true_2.
  - intros u r Hu Hn. rewrite store_lookup_emit, M2, Hn.
    destruct (Hall u (model_urls_in_manifest u Hu)) as (r' & Hr' & Hok & Hst).
    assert (r' = r) as -> by congruence.
    by rewrite Hok, Hst, bool_decide_eq_true_2.
  - rewrite (new_events_app w _
               ((EvOpen STATIC_CACHE :: la) ++ (EvOpen MODEL_CACHE :: lm) ++ [EvSkipWaiting])).
    + apply in_or_app. right. apply in_or_app. right. by left.
    + cbn [trace emit]. rewrite M4. cbn [trace opened emit set_caches]. rewrite A4.
      cbn [trace opened emit set_caches]. by rewrite <- !app_assoc.
  - intros name Hs Hm. rewrite store_of_emit.
    rewrite (M3 name Hm), store_of_opened, (A3 name Hs). apply store_of_opened.
Qed.

Lemma install_populates_the_stores_witness :
  In EvSkipWaiting (new_events empty_world (onInstall (online 0) empty_world).2) /\
  store_lookup STATIC_CACHE "/manifest.json" (onInstall (online 0) empty_world).2
  = Some (served "/manifest.json").
Proof.
  pose proof (install_populates_the_stores (online 0) empty_world) as H.
  destruct H as (_ & H1 & _ & H2 & _); [intros u _; by exists (served u)|].
  split; [exact H2|]. apply H1; [|reflexivity].
  unfold STATIC_ASSETS. rewrite !elem_of_cons. tauto.
Defined.

(** X10: when the fetch of some URL of the install manifest fails or is
    answered with a status that is not [ok], install fetches the whole
    manifest and does nothing else: no store gets an entry, the model
    store is not opened, [skipWaiting] is not called; its promise is still
    fulfilled. *)
Theorem install_with_a_failing_asset_stores_nothing E w u
    (Hin : u ∈ STATIC_ASSETS)
    (Hbad : match net E u with inl r => ok r = false | inr _ => True end) :
  let res := onInstall E w in
  res.1 = Returned tt /\
  (forall name, store_of name res.2 = store_of name w) /\
  background res.2 = background w /\
  new_events w res.2 = EvOpen STATIC_CACHE :: List.map EvFetch STATIC_ASSETS.
Proof.
  intros res. subst res.
  destruct (first_failure_Some E STATIC_ASSETS u) as [e He]; [by apply list_elem_of_In|done|].
  unfold onInstall, try_catch, bind, caches_open.
  rewrite (cache_addAll_failure _ _ _ _ _ He). cbn [fst snd ret].
  split; [done|]. split; [intros name; apply store_of_opened|]. split; [done|].
  apply new_events_app. cbn [trace opened emit set_caches]. by rewrite <- app_assoc.
Qed.

Lemma install_with_a_failing_asset_stores_nothing_witness :
  store_of STATIC_CACHE (onInstall (answering 0 "/manifest.json" 404) empty_world).2
  = store_of STATIC_CACHE empty_world.
Proof.
  apply (install_with_a_failing_asset_stores_nothing
           (answering 0 "/manifest.json" 404) empty_world "/manifest.json").
  - unfold STATIC_ASSETS. rewrite !elem_of_cons. tauto.
  - reflexivity.
Defined.

(** X11: [prefetchModels], called with a list of URLs, never rejects,
    whichever fetch fails and whichever write the Cache rejects.
    Afterwards the model store holds, for each listed URL answered with an
    [ok] response that the Cache accepts (its status is not 206 and its
    [Vary] header does not list [*]), the response as fetched; the entry of
    every other key (a URL whose fetch failed, was not [ok] or was not
    accepted, or a key that was not listed) is what it was; and the other
    stores are untouched. *)
Theorem prefetchModels_isolates_failures E urls w :
  let res := prefetchModels E urls w in
  res.1 = Returned tt /\
  (forall k,
     store_lookup MODEL_CACHE k res.2 =
     match net E k with
     | inl r => if ok r && storable r && bool_decide (k ∈ urls) then Some r
                else store_lookup MODEL_CACHE k w
     | inr _ => store_lookup MODEL_CACHE k w
     end) /\
  (forall name, name <> MODEL_CACHE -> store_of name res.2 = store_of name w).
Proof.
  intros res. subst res.
  assert (Heq : prefetchModels E urls w =
                (Returned tt,
                 (forEach (install_model E MODEL_CACHE) urls (opened MODEL_CACHE w)).2)).
  { unfold prefetchModels, try_catch, bind, caches_open.
    change (fun u => _) with (install_model E MODEL_CACHE).
    destruct (forEach_install_model E MODEL_CACHE urls (opened MODEL_CACHE w)) as (H & _).
    destruct (forEach _ _ _) as [o w1]. cbn [fst snd] in *. by subst o. }
  destruct (forEach_install_model E MODEL_CACHE urls (opened MODEL_CACHE w))
    as (_ & M2 & M3 & _).
  split; [by rewrite Heq|].
  rewrite Heq. cbn [snd]. split.
  - intros k. rewrite M2, store_lookup_opened. done.
  - intros name Hn. rewrite (M3 name Hn). apply store_of_opened.
Qed.

(** ** Activation and the clear command *)

Lemma forEach_caches_delete l w :
  let res := forEach (fun n => _ <- caches_delete n ;; ret tt) l w in
  res.1 = Returned tt /\
  (forall name,
     caches res.2 !! name = if bool_decide (name ∈ l) then None else caches w !! name) /\
  trace res.2 = trace w /\ background res.2 = background w.
Proof.
  cbv zeta. revert w. induction l as [|n l IH]; intros w; [done|].
  rewrite (forEach_cons_returned _ _ _ w (set_caches (delete n (caches w)) w)) by reflexivity.
  destruct (IH (set_caches (delete n (caches w)) w)) as (H1 & H2 & H3 & H4).
  split; [exact H1|]. split; [|by rewrite H3, H4].
  intros name. rewrite H2. cbn [caches set_caches].
  destruct (decide (name = n)) as [->|Hne].
  - rewrite lookup_delete_eq, (bool_decide_eq_true_2 (n ∈ n :: l)) by (by left).
    by destruct (bool_decide (n ∈ l)).
  - rewrite lookup_delete_ne by done.
    assert (Hb : bool_decide (name ∈ n :: l) = bool_decide (name ∈ l)).
    { apply bool_decide_ext. rewrite elem_of_cons. intuition congruence. }
    by rewrite Hb.
Qed.

Lemma includes_validCaches name :
  existsb (String.eqb name) validCaches = bool_decide (name ∈ validCaches).
Proof.
  destruct (bool_decide_reflect (name ∈ validCaches)) as [Hin|Hnin].
  - apply existsb_exists. exists name. split; [by apply list_elem_of_In|apply String.eqb_refl].
  - apply not_true_is_false. intros (x & Hx & Heq)%existsb_exists.
    apply String.eqb_eq in Heq as ->. by apply Hnin, list_elem_of_In.
Qed.

Lemma cleanupOldCaches_eq w :
  (cleanupOldCaches w).1 = Returned tt /\
  (forall name,
     caches (cleanupOldCaches w).2 !! name =
     if bool_decide (name ∈ validCaches) then caches w !! name else None) /\
  trace (cleanupOldCaches w).2 = trace w /\
  background (cleanupOldCaches w).2 = background w.
Proof.
  unfold cleanupOldCaches, try_catch, bind, caches_keys.
  set (old := List.filter _ _).
  destruct (forEach_caches_delete old w) as (H1 & H2 & H3 & H4).
  destruct (forEach _ old w) as [o w1]. cbn [fst snd] in *. subst o.
  split; [done|]. split; [|done].
  intros name. rewrite H2.
  destruct (bool_decide_reflect (name ∈ old)) as [Hin|Hnin].
  - apply list_elem_of_In, filter_In in Hin as [_ Hin].
    rewrite includes_validCaches in Hin. by destruct (bool_decide (name ∈ validCaches)).
  - destruct (bool_decide (name ∈ validCaches)) eqn:Hv; [done|].
    destruct (caches w !! name) as [c|] eqn:Hc; [|done].
    exfalso. apply Hnin, list_elem_of_In, filter_In. split.
    + apply list_elem_of_In, elem_of_elements, elem_of_dom. by exists c.
    + by rewrite includes_validCaches, Hv.
Qed.

(** X12: activation deletes exactly the stores whose name is not one of
    the four current store names: afterwards a store exists if and only if
    it existed before under one of these names, with the entries it had;
    the promise of the activate handler is always fulfilled. *)
Theorem activation_keeps_only_the_current_stores w :
  (onActivate w).1 = Returned tt /\
  (forall name,
     caches (onActivate w).2 !! name =
     if bool_decide (name ∈ validCaches) then caches w !! name else None) /\
  (forall name, name ∈ validCaches ->
     store_of name (onActivate w).2 = store_of name w) /\
  (forall name, name ∉ validCaches -> store_of name (onActivate w).2 = []).
Proof.
  destruct (cleanupOldCaches_eq w) as (H1 & H2 & _).
  assert (Heq : onActivate w = (Returned tt, (cleanupOldCaches w).2)).
  { unfold onActivate, try_catch, bind, ret.
    destruct (cleanupOldCaches w) as [o w1]. cbn [fst] in H1. by subst o. }
  rewrite Heq. cbn [fst snd]. split; [done|]. split; [exact H2|]. split.
  - intros name Hv. unfold store_of. by rewrite H2, bool_decide_eq_true_2.
  - intros name Hv. unfold store_of. by rewrite H2, bool_decide_eq_false_2.
Qed.

(** X13: the clear command deletes the named store and posts a success;
    the other stores keep their entries.  Any lookup in the cleared store
    then misses: [cacheOnly] throws "No cached response available" and
    [cacheFirst] goes to the network. *)
Theorem clear_command_empties_the_store E E' name req d w :
  let w1 := (onMessage E (CLEAR_CACHE name) w).2 in
  (onMessage E (CLEAR_CACHE name) w).1 = Returned (Some Success) /\
  caches w1 = delete name (caches w) /\
  (forall n, n <> name -> store_of n w1 = store_of n w) /\
  (cacheOnly req name w1).1 = Thrown (JsError "No cached response available") /\
  fetch_attempted (cacheFirst E' req name d) w1 (key_of req).
Proof.
  cbv zeta.
  assert (Heq : onMessage E (CLEAR_CACHE name) w =
                (Returned (Some Success), set_caches (delete name (caches w)) w))
    by reflexivity.
  rewrite Heq. cbn [fst snd].
  assert (Hl : store_lookup name (key_of req) (set_caches (delete name (caches w)) w) = None).
  { unfold store_lookup, store_of. cbn [caches set_caches]. by rewrite lookup_delete_eq. }
  split; [done|]. split; [done|]. split; [|split].
  - intros n Hn. unfold store_of. cbn [caches set_caches]. by rewrite lookup_delete_ne.
  - by rewrite cacheOnly_eq, Hl.
  - apply fetch_attempted_expired. by rewrite Hl.
Qed.

(** ** Routing by the end of the URL and by keyword *)

Lemma test_append r (a b : string) : test r b = true -> test r (a ++ b)%string = true.
Proof.
  intros Hb. induction a as [|c a IH]; [exact Hb|].
  change (test r (String c a ++ b)%string)
    with (match_here r (String c (a ++ b)%string) (fun _ => true) || test r (a ++ b)%string).
  rewrite IH. apply orb_true_r.
Qed.

Lemma static_pattern_accepts ext :
  In ext static_extensions -> test static_pattern ("." ++ ext)%string = true.
Proof.
  revert ext. apply forallb_forall. vm_compute. reflexivity.
Qed.

Lemma models_pattern_accepts kw (b : string) :
  In kw model_keywords -> test models_pattern (kw ++ b)%string = true.
Proof. intros [<-|[<-|[<-|[]]]]; reflexivity. Qed.

(** X14: a URL whose path (or whose full text) ends in a dot followed by
    one of css, js, png, jpg, jpeg, svg, woff, woff2, ttf, eot is always
    given the static policy, whatever else it matches: in particular png,
    jpg and jpeg never get the image policy, and a model script ending in
    .js never gets the model policy. *)
Theorem static_extension_gets_static_policy u req p ext
    (Hext : In ext static_extensions)
    (Hend : pathname u = (p ++ "." ++ ext)%string \/ href u = (p ++ "." ++ ext)%string) :
  findMatchingRoute u req = route_static.
Proof.
  rewrite findMatchingRoute_cases.
  assert (Hm : route_matches u route_static = true).
  { unfold route_matches. cbn [pattern route_static].
    pose proof (test_append static_pattern p _ (static_pattern_accepts ext Hext)) as Ht.
    destruct Hend as [->| ->]; rewrite Ht; [done|apply orb_true_r]. }
  by rewrite Hm.
Qed.

Lemma static_extension_gets_static_policy_witness :
  findMatchingRoute
    (mkURL "https://cdn.jsdelivr.net/npm/@tensorflow-models/blazeface@0.0.7/dist/blazeface.min.js"
       "/npm/@tensorflow-models/blazeface@0.0.7/dist/blazeface.min.js" "https:")
    logo_request = route_static.
Proof.
  apply (static_extension_gets_static_policy _ _
           "/npm/@tensorflow-models/blazeface@0.0.7/dist/blazeface.min" "js").
  - cbn. tauto.
  - left. reflexivity.
Defined.

(** X15: a URL that contains one of the keywords tensorflow, blazeface,
    mobilenet anywhere in its full text, the host name included, is given
    the model policy unless the static pattern matches it. *)
Theorem model_keyword_gets_model_policy u req (a b : string) kw
    (Hkw : In kw model_keywords)
    (Hhref : href u = (a ++ kw ++ b)%string)
    (Hstatic : route_matches u route_static = false) :
  findMatchingRoute u req = route_models.
Proof.
  rewrite findMatchingRoute_cases, Hstatic.
  assert (Hm : route_matches u route_models = true).
  { unfold route_matches. cbn [pattern route_models]. rewrite Hhref.
    rewrite (test_append models_pattern a _ (models_pattern_accepts kw b Hkw)).
    apply orb_true_r. }
  by rewrite Hm.
Qed.

Lemma model_keyword_gets_model_policy_witness :
  findMatchingRoute
    (mkURL "https://tensorflow.example/weights/group1.bin" "/weights/group1.bin" "https:")
    logo_request = route_models.
Proof.
  apply (model_keyword_gets_model_policy _ _ "https://" ".example/weights/group1.bin"
           "tensorflow").
  - cbn. tauto.
  - reflexivity.
  - vm_compute. reflexivity.
Defined.

(** ** Eviction, once more *)

#[local] Instance untouched_except_preorder c : PreOrder (untouched_except c).
Proof.
  split; [by intros w n Hn|].
  intros w1 w2 w3 H1 H2 n Hn. by rewrite (H2 n Hn), (H1 n Hn).
Qed.

Lemma untouched_except_same_contents c w w' :
  same_contents w w' -> untouched_except c w w'.
Proof. intros [H _] n _. apply H. Qed.






(** ** The fetch listener *)

Lemma findMatchingRoute_configured u req :
  let route := findMatchingRoute u req in
  cacheName route ∈ validCaches /\
  (strategy route = CACHE_FIRST \/ strategy route = NETWORK_FIRST \/
   strategy route = STALE_WHILE_REVALIDATE) /\
  0 < maxEntries route <= 200 /\ 0 < maxAge route.
Proof.
  cbv zeta. rewrite findMatchingRoute_cases.
  repeat match goal with
         | |- context [if ?b then _ else _] => destruct b
         end;
    (split; [unfold validCaches; cbn; rewrite !elem_of_cons; tauto|]);
    (split; [cbn; tauto|]); cbn; lia.
Qed.

(** X17: the fetch listener answers only GET requests over http(s).  The
    policy it then applies is never NETWORK_ONLY or CACHE_ONLY, and its
    store is one of the four stores that activation keeps.  With nothing
    pending before, that store holds at most the [maxEntries] of the policy
    when the request has been handled under a strategy that awaits its
    write, and at most [maxEntries + 1] once the write that
    STALE_WHILE_REVALIDATE leaves pending has completed; [maxEntries] is at
    most 200. *)
Theorem intercepted_request_uses_a_bounded_current_store E req m w
    (Hm : onFetch E req = Some m) (Hw : unique_keys w) (Hidle : background w = []) :
  let route := findMatchingRoute (url req) req in
  method req = "GET" /\
  String.prefix "http" (protocol (url req)) = true /\
  m = handleRequest E req route /\
  cacheName route ∈ validCaches /\
  (strategy route = CACHE_FIRST \/ strategy route = NETWORK_FIRST \/
   strategy route = STALE_WHILE_REVALIDATE) /\
  (strategy route <> STALE_WHILE_REVALIDATE ->
     Z.of_nat (length (store_of (cacheName route) (m w).2)) <= maxEntries route) /\
  Z.of_nat (length (store_of (cacheName route) (settle (m w).2).2)) <= maxEntries route + 1 /\
  maxEntries route <= 200.
Proof.
  intros route. unfold onFetch in Hm.
  destruct (String.eqb_spec (method req) "GET") as [Hget|]; [|discriminate].
  destruct (String.prefix "http" (protocol (url req))) eqn:Hp; [|discriminate].
  cbn in Hm. injection Hm as <-.
  destruct (findMatchingRoute_configured (url req) req) as (Hv & Hs & HN & _).
  fold route in Hv, Hs, HN.
  split; [done|]. split; [done|]. split; [done|]. split; [done|]. split; [done|].
  split; [intros _; apply store_within_bound_after; [done|lia]|].
  split; [apply bound_once_settled; [done|lia|done]|lia].
Qed.

Lemma intercepted_request_uses_a_bounded_current_store_witness :
  let E := online 2 in
  let w := world_with IMAGE_CACHE [("a", served "a"); ("b", served "b")] in
  let route := findMatchingRoute (url gallery_request) gallery_request in
  let m := handleRequest E gallery_request route in
  method gallery_request = "GET" /\
  String.prefix "http" (protocol (url gallery_request)) = true /\
  m = handleRequest E gallery_request route /\
  cacheName route ∈ validCaches /\
  (strategy route = CACHE_FIRST \/ strategy route = NETWORK_FIRST \/
   strategy route = STALE_WHILE_REVALIDATE) /\
  (strategy route <> STALE_WHILE_REVALIDATE ->
     Z.of_nat (length (store_of (cacheName route) (m w).2)) <= maxEntries route) /\
  Z.of_nat (length (store_of (cacheName route) (settle (m w).2).2)) <= maxEntries route + 1 /\
  maxEntries route <= 200.
Proof.
  apply (intercepted_request_uses_a_bounded_current_store (online 2) gallery_request
           (handleRequest (online 2) gallery_request
              (findMatchingRoute (url gallery_request) gallery_request))
           (world_with IMAGE_CACHE [("a", served "a"); ("b", served "b")])).
  - reflexivity.
  - intros name. unfold store_of, world_with. cbn [caches].
    destruct (decide (name = IMAGE_CACHE)) as [->|Hne].
    + rewrite lookup_singleton_eq. cbn. repeat constructor.
      * rewrite elem_of_cons, elem_of_nil. intros [H|[]]. discriminate H.
      * by intros H%elem_of_nil.
    + rewrite lookup_singleton_ne by done. apply NoDup_nil_2.
  - reflexivity.
Defined.

Example gallery_request_is_revalidated_in_background :
  let route := findMatchingRoute (url gallery_request) gallery_request in
  let w := world_with IMAGE_CACHE [("a", served "a"); ("b", served "b")] in
  strategy route = STALE_WHILE_REVALIDATE /\ cacheName route = IMAGE_CACHE /\
  length (store_of IMAGE_CACHE
            (settle (handleRequest (online 2) gallery_request route w).2).2) = 3%nat.
Proof. vm_compute. auto. Qed.

(** ** A fetched entry and the eviction that follows *)





